(** * Metaobject resolution in the storefront sections

    A shallow embedding of the data-resolution code of the storefront:
    the field accessors and view-model derivation of the three content
    sections ([HeroParallax], [ProductCarousel], [ReviewsSection]) and the
    homepage loader that fetches their metaobjects.

    JavaScript values are embedded as follows.
    - A string is a [string]; text is taken to be well formed, so a string
      is read as its UTF-8 byte sequence.
    - A property that may be missing, [null] or [undefined] is an [option];
      the code never tells these three apart.
    - An array is a [list]; an array whose entries may be [null] is a list
      of options.
    - A callback that may raise a [TypeError] returns a [result]. *)

From Stdlib Require Import ZArith QArith String Ascii List Bool Lia.
From Stdlib Require Import DecimalString.
From stdpp Require Import base list.
Import ListNotations.

Local Open Scope string_scope.
Local Open Scope list_scope.

(** ** JavaScript operators used by the sections *)

Module JS.

(** Truthiness of a string: every string but the empty one. *)
Definition truthy (s : string) : bool := negb (String.eqb s "").

(** [a || b] where [a] is a string or [undefined]/[null] and [b] is a
    string. *)
Definition or (a : option string) (b : string) : string :=
  match a with
  | Some s => if truthy s then s else b
  | None => b
  end.

(** Truthiness of a property that holds an object or an array: it is
    truthy as soon as it is there. *)
Definition present {A} (a : option A) : bool :=
  match a with Some _ => true | None => false end.

(** Truthiness of [o?.p] where [p] holds a string. *)
Definition truthy_opt (a : option string) : bool :=
  match a with Some s => truthy s | None => false end.

(** Outcome of code that may raise. *)
Inductive exn := TypeError | ReferenceError | OtherError (msg : string).

Inductive result (A : Type) :=
| Ok (a : A)
| Throw (e : exn).
Arguments Ok {A} a.
Arguments Throw {A} e.

Definition bind {A B} (r : result A) (k : A -> result B) : result B :=
  match r with
  | Ok a => k a
  | Throw e => Throw e
  end.

(** [Array.prototype.map] with a callback that may raise: the callback
    runs on the entries from left to right and the first exception
    aborts the whole call. *)
Fixpoint map {A B} (f : A -> result B) (l : list A) : result (list B) :=
  match l with
  | [] => Ok []
  | x :: l' =>
      bind (f x) (fun y => bind (map f l') (fun ys => Ok (y :: ys)))
  end.

(** [Array.prototype.find]: the first entry the callback accepts. *)
Definition find {A} (p : A -> bool) (l : list A) : option A := List.find p l.

(** [Array.prototype.filter]: the accepted entries, in order. *)
Definition filter {A} (p : A -> bool) (l : list A) : list A := List.filter p l.

(** [a % b] on integers: the remainder has the sign of [a]; [None]
    stands for [NaN], the result for [b = 0]. *)
Definition rem (a b : Z) : option Z :=
  if Z.eqb b 0 then None else Some (Z.rem a b).

(** [arr[i]] for a computed index: [undefined] for [NaN], for a negative
    index and for an index at or past the end. *)
Definition index {A} (arr : list A) (i : option Z) : option A :=
  match i with
  | Some z => if Z.ltb z 0 then None else nth_error arr (Z.to_nat z)
  | None => None
  end.

(** [encodeURIComponent]: the unreserved characters
    [A-Z a-z 0-9 - _ . ! ~ * ' ( )] are kept, every other byte of the
    UTF-8 encoding becomes [%XX] with upper-case hexadecimal digits. *)
Definition unreserved (c : ascii) : bool :=
  let n := nat_of_ascii c in
  ((65 <=? n)%nat && (n <=? 90)%nat)
  || ((97 <=? n)%nat && (n <=? 122)%nat)
  || ((48 <=? n)%nat && (n <=? 57)%nat)
  || existsb (Ascii.eqb c) (list_ascii_of_string "-_.!~*'()").

Definition hexDigit (n : nat) : ascii :=
  nth n (list_ascii_of_string "0123456789ABCDEF") "0"%char.

Fixpoint encodeURIComponent (s : string) : string :=
  match s with
  | EmptyString => EmptyString
  | String c s' =>
      if unreserved c then String c (encodeURIComponent s')
      else
        let n := nat_of_ascii c in
        String "%"%char
          (String (hexDigit (n / 16))
             (String (hexDigit (n mod 16)) (encodeURIComponent s')))
  end.

(** [arr.map((x, idx) => ...)]: the callback also receives the position
    of the entry, counted from [idx]. *)
Fixpoint mapIndexed {A B} (f : A -> nat -> B) (l : list A) (idx : nat)
  : list B :=
  match l with
  | [] => []
  | x :: l' => f x idx :: mapIndexed f l' (S idx)
  end.

(** An integer inside a template literal. *)
Definition showInt (z : Z) : string := NilZero.string_of_int (Z.to_int z).

(** An id inside a template literal.  The queries select [id] on
    [Product] and on [Metaobject], where the API declares it non-null
    ([ID!]): an id is a string, or it is a property that is not there
    (the node is of another type, or the entry is [undefined]), which
    prints as [undefined]; it is never [null]. *)
Definition showString (s : option string) : string :=
  match s with
  | Some s => s
  | None => "undefined"
  end.

(** The first [n] characters removed. *)
Fixpoint skip (n : nat) (s : string) : string :=
  match n, s with
  | O, _ => s
  | S n', String _ s' => skip n' s'
  | S _, EmptyString => EmptyString
  end.

(** [s.replace(pattern, replacement)] for a string pattern and a
    replacement without [$]: the first occurrence of the pattern, if
    any, is replaced. *)
Fixpoint replace (pattern replacement s : string) : string :=
  if String.prefix pattern s
  then (replacement ++ skip (String.length pattern) s)%string
  else
    match s with
    | EmptyString => EmptyString
    | String c s' => String c (replace pattern replacement s')
    end.

(** [s.split(sep)] for a separator of one character. *)
Fixpoint split (sep : ascii) (s : string) : list string :=
  match s with
  | EmptyString => [EmptyString]
  | String c s' =>
      if Ascii.eqb c sep then EmptyString :: split sep s'
      else
        match split sep s' with
        | w :: ws => String c w :: ws
        | [] => [String c EmptyString]
        end
  end.

(** The value of [Math.floor]: an integer, an infinity or [NaN]. *)
Inductive floored :=
| FNaN
| FInt (z : Z)
| FInfinity (negative : bool).

(** [i < x] for an integer [i] and a floored number [x]; a comparison
    with [NaN] is false. *)
Definition ltFloored (i : Z) (x : floored) : bool :=
  match x with
  | FNaN => false
  | FInt z => Z.ltb i z
  | FInfinity negative => negb negative
  end.

End JS.

Abbreviation Ok := JS.Ok.
Abbreviation Throw := JS.Throw.

(** ** Data model: what the storefront API hands to the sections *)

(** Modelled from the spec: the type declarations of the storefront API
    ([@shopify/hydrogen/storefront-api-types]) are not among the sources.
    The shapes below follow the data model of the specification and the
    selections of the GraphQL queries, restricted to the properties the
    components read. *)
Module Api.

Record MoneyV2 := { amount : string; currencyCode : string }.

Record PriceRange := { minVariantPrice : MoneyV2 }.

Record Image := {
  url : string;
  altText : option string;
  width : option Z;
  height : option Z
}.

(** The single [reference] of a field.  The queries select [image] on
    [MediaImage] only, so a reference either is an object without an
    [image] property or carries one, which may still be [null]. *)
Inductive Reference :=
| RefOther
| RefMediaImage (image : option Image).

(** ['image' in r] *)
Definition hasImage (r : Reference) : bool :=
  match r with RefMediaImage _ => true | RefOther => false end.

(** [r.image]: [undefined] on an object without the property. *)
Definition image (r : Reference) : option Image :=
  match r with RefMediaImage i => i | RefOther => None end.

(** [references]: a connection whose [nodes] array may be missing. *)
Record Connection (A : Type) := { nodes : option (list (option A)) }.
Arguments nodes {A} c.

(** A field of a metaobject, and a linked entity as the components see
    it (the references are typed [any]): the properties they read, each
    possibly absent.  A metaobject carries [id], [handle] and [fields];
    a product carries [id], [title], [handle], [priceRange] and
    [featuredImage].  The [value] of a field is a string that is always
    present, possibly empty; its [type] is never read. *)
Inductive Field := mkField {
  key : string;
  value : string;
  reference : option Reference;
  references : option (Connection Entity)
}
with Entity := mkEntity {
  id : option string;
  title : option string;
  handle : option string;
  priceRange : option PriceRange;
  featuredImage : option Image;
  fields : option (list (option Field))
}.

End Api.

Abbreviation Field := Api.Field.
Abbreviation Metaobject := Api.Entity (only parsing).

(** ** The lookup shared by every accessor *)

(** The callback [(f) => f?.key === key]. *)
Definition keyIs (k : string) (f : option Field) : bool :=
  match f with
  | Some f => String.eqb (Api.key f) k
  | None => false
  end.

(** [fields?.find((f) => f?.key === key)]: [undefined] when the list is
    missing or holds no such entry. *)
Definition findField (fs : option (list (option Field))) (k : string)
  : option Field :=
  match fs with
  | Some l =>
      match JS.find (keyIs k) l with
      | Some f => f
      | None => None
      end
  | None => None
  end.

(** *** Specification vocabulary for lookups *)

(** [f] is the first field of [m] whose key is [k]: some entry of the
    list is [f], its key is [k], and no earlier entry has key [k]. *)
Definition first_field (m : Metaobject) (k : string) (f : Field) : Prop :=
  exists pre post,
    Api.fields m = Some (pre ++ Some f :: post) /\
    Api.key f = k /\
    forall g, Some g ∈ pre -> Api.key g <> k.

(** [m] has no field with key [k] (in particular when it has no list). *)
Definition no_field (m : Metaobject) (k : string) : Prop :=
  forall l g, Api.fields m = Some l -> Some g ∈ l -> Api.key g <> k.

(** ** HeroParallax.tsx *)

Module HeroParallax.

Definition getFieldValue (metaobject : Metaobject) (k : string) : string :=
  JS.or (option_map Api.value (findField (Api.fields metaobject) k)) "".

(** [fields?.find(...)?.reference] *)
Definition getFieldReference (metaobject : Metaobject) (k : string)
  : option Api.Reference :=
  match findField (Api.fields metaobject) k with
  | Some f => Api.reference f
  | None => None
  end.

Definition heading m := getFieldValue m "heading".
Definition subheading m := getFieldValue m "subheading".
Definition ctaText m := getFieldValue m "cta_text".
Definition ctaUrl m := getFieldValue m "cta_url_new".

Definition backgroundImageReference m :=
  getFieldReference m "background_image".

(** The body of the [backgroundImage] memo, as a function of the
    reference it reads. *)
Definition narrowImage (backgroundImageReference : option Api.Reference)
  : option Api.Image :=
  match backgroundImageReference with
  | Some r =>
      if Api.hasImage r then
        match Api.image r with
        | Some img =>
            Some {| Api.url := Api.url img;
                    Api.altText := Some (JS.or (Api.altText img) "");
                    Api.width := Api.width img;
                    Api.height := Api.height img |}
        | None => None
        end
      else None
  | None => None
  end.

Definition backgroundImage m := narrowImage (backgroundImageReference m).

(** What the section renders from.  The component has a single render
    path: it has no guard on its metaobject. *)
Record View := {
  v_heading : string;
  v_subheading : string;
  v_ctaText : string;
  v_ctaUrl : string;
  v_backgroundImage : option Api.Image
}.

Definition HeroParallax (metaobject : Metaobject) : View :=
  {| v_heading := heading metaobject;
     v_subheading := subheading metaobject;
     v_ctaText := ctaText metaobject;
     v_ctaUrl := ctaUrl metaobject;
     v_backgroundImage := backgroundImage metaobject |}.

Definition formattedHeading m :=
  JS.replace "WELCOME TO THE" "WELCOME TO THE<br>" (heading m).

Definition formattedSubheading m :=
  JS.replace "Premium footwear for the modern athlete."
    "Premium footwear for the modern athlete.<br>" (subheading m).

(** The parts of the returned markup that depend on the metaobject: the
    background image, the markup set as the content of the heading and
    of the subheading, and the address and label of the button.  A part
    is [None] when its element is not rendered. *)
Record Markup := {
  m_background : option Api.Image;
  m_heading : option string;
  m_subheading : option string;
  m_cta : option (string * string)
}.

Definition markup (metaobject : Metaobject) : Markup :=
  {| m_background := backgroundImage metaobject;
     m_heading :=
       if JS.truthy (heading metaobject)
       then Some (formattedHeading metaobject) else None;
     m_subheading :=
       if JS.truthy (subheading metaobject)
       then Some (formattedSubheading metaobject) else None;
     m_cta :=
       if JS.truthy (ctaText metaobject) && JS.truthy (ctaUrl metaobject)
       then Some (ctaUrl metaobject, ctaText metaobject) else None |}.

End HeroParallax.

(** ** ProductCarousel.tsx *)

Module ProductCarousel.

(** The resolved product.  [id], [title] and [handle] hold whatever the
    node held. *)
Record Product := {
  id : option string;
  title : option string;
  priceRange : Api.PriceRange;
  featuredImage : option Api.Image;
  handle : option string
}.

(** [{...products[index], offset, isActive}]: spreading [undefined]
    contributes no property. *)
Record VisibleProduct := {
  product : option Product;
  offset : Z;
  isActive : bool
}.

Inductive View :=
| ErrorState
| EmptyState (handle : option string)
| Carousel (heading : string) (visibleProducts : list VisibleProduct)
    (centerProduct : option Product).

Definition getFieldValue (metaobject : Metaobject) (k : string) : string :=
  JS.or (option_map Api.value (findField (Api.fields metaobject) k)) "".

(** [field?.references?.nodes] *)
Definition nodesOf (field : option Field)
  : option (list (option Api.Entity)) :=
  match field with
  | Some f =>
      match Api.references f with
      | Some c => Api.nodes c
      | None => None
      end
  | None => None
  end.

Definition getFieldReferences (metaobject : Metaobject) (k : string)
  : list (option Api.Entity) :=
  let field := findField (Api.fields metaobject) k in
  match nodesOf field with
  | Some l => l
  | None => []
  end.

Definition heading m :=
  JS.or (Some (getFieldValue m "heading")) "Our Featured Products".

Definition productNodes m := getFieldReferences m "products".

(** [node?.id && node?.title && node?.priceRange] *)
Definition isComplete (node : option Api.Entity) : bool :=
  match node with
  | Some n =>
      JS.truthy_opt (Api.id n) && JS.truthy_opt (Api.title n)
      && JS.present (Api.priceRange n)
  | None => false
  end.

(** The [map] callback.  Reading a property of [null], or
    [minVariantPrice] of a missing [priceRange], raises. *)
Definition toProduct (product : option Api.Entity) : JS.result Product :=
  match product with
  | Some p =>
      match Api.priceRange p with
      | Some range =>
          Ok {| id := Api.id p;
                title := Api.title p;
                priceRange :=
                  {| Api.minVariantPrice :=
                       {| Api.amount :=
                            Api.amount (Api.minVariantPrice range);
                          Api.currencyCode :=
                            Api.currencyCode (Api.minVariantPrice range) |} |};
                featuredImage := Api.featuredImage p;
                handle := Api.handle p |}
      | None => Throw JS.TypeError
      end
  | None => Throw JS.TypeError
  end.

Definition productsOf (productNodes : list (option Api.Entity))
  : JS.result (list Product) :=
  JS.map toProduct (JS.filter isComplete productNodes).

Definition products m := productsOf (productNodes m).

(** [for (let i = -2; i <= 2; i++) visible.push(...)] *)
Definition visibleProducts (products : list Product) (currentIndex : Z)
  : list VisibleProduct :=
  List.map
    (fun i =>
       let index :=
         JS.rem (currentIndex + i + Z.of_nat (length products))
                (Z.of_nat (length products)) in
       {| product := JS.index products index;
          offset := i;
          isActive := Z.eqb i 0 |})
    [-2; -1; 0; 1; 2]%Z.

(** The state updates of the navigation handlers. *)
Definition handleNext (products : list Product) (prev : Z) : option Z :=
  JS.rem (prev + 1) (Z.of_nat (length products)).

Definition handlePrevious (products : list Product) (prev : Z) : Z :=
  if Z.eqb prev 0 then Z.of_nat (length products) - 1 else prev - 1.

(** The component, as a function of its prop and of the [currentIndex]
    state. *)
Definition ProductCarousel (metaobject : option Metaobject)
    (currentIndex : Z) : JS.result View :=
  match metaobject with
  | Some m =>
      match Api.fields m with
      | Some _ =>
          JS.bind (products m) (fun products =>
            if Nat.eqb (length products) 0
            then Ok (EmptyState (Api.handle m))
            else Ok (Carousel (heading m)
                       (visibleProducts products currentIndex)
                       (JS.index products (Some currentIndex))))
      | None => Ok ErrorState
      end
  | None => Ok ErrorState
  end.

(** *** The index state and its updates *)

Record State := { currentIndex : Z; prevIndex : Z }.

(** [useState(0)] for both. *)
Definition initial : State := {| currentIndex := 0; prevIndex := 0 |}.

Inductive Direction := down | up.

(** The updater the scroll timeout passes to [setCurrentIndex], for the
    direction of the scroll that armed the timeout. *)
Definition scrollUpdate (products : list Product) (direction : Direction)
    (prev : Z) : option Z :=
  match direction with
  | down => JS.rem (prev + 1) (Z.of_nat (length products))
  | up =>
      Some (if Z.eqb prev 0 then Z.of_nat (length products) - 1
            else prev - 1)%Z
  end.

(** What changes the index: a click on an arrow, or the scroll timeout
    firing. *)
Inductive Event :=
| ClickPrevious
| ClickNext
| ScrollTimeout (direction : Direction).

(** One update: [prevIndex] receives the index before the update.  The
    result is [None] when the new index is [NaN]. *)
Definition step (products : list Product) (s : State) (e : Event)
  : option State :=
  let store next := {| currentIndex := next; prevIndex := currentIndex s |} in
  match e with
  | ClickPrevious => Some (store (handlePrevious products (currentIndex s)))
  | ClickNext => option_map store (handleNext products (currentIndex s))
  | ScrollTimeout direction =>
      option_map store (scrollUpdate products direction (currentIndex s))
  end.

Fixpoint run (products : list Product) (s : State) (events : list Event)
  : option State :=
  match events with
  | [] => Some s
  | e :: rest =>
      match step products s e with
      | Some s' => run products s' rest
      | None => None
      end
  end.

(** *** The entries of the window as they are drawn *)

Inductive Loading := eager | lazy.

(** What is drawn for one entry: the key, the class, the horizontal
    shift in pixels and the scale of the transform, the opacity, the
    z-index, and the image with its loading mode ([None] for the
    "No Image" placeholder). *)
Record Item := {
  i_key : string;
  i_className : string;
  i_translateX : Z;
  i_scale : Q;
  i_opacity : Q;
  i_zIndex : Z;
  i_image : option (Api.Image * Loading)
}.

(** The callback of [visibleProducts.map((product, idx) => ...)]. *)
Definition drawItem (currentIndex : Z) (product : VisibleProduct)
    (idx : nat) : Item :=
  let absOffset := Z.abs (offset product) in
  {| i_key :=
       (JS.showString (match ProductCarousel.product product with
                       | Some p => id p
                       | None => None
                       end)
        ++ "-" ++ JS.showInt (Z.of_nat idx)
        ++ "-" ++ JS.showInt currentIndex)%string;
     i_className :=
       ("product-item-infinite "
        ++ (if isActive product then "active fade-in-center center-pulse"
            else ""))%string;
     i_translateX := offset product * 320;
     i_scale := if isActive product then 1%Q else (7 # 10)%Q;
     i_opacity :=
       if isActive product then 1%Q
       else if Z.eqb absOffset 1 then (1 # 2)%Q else (3 # 10)%Q;
     i_zIndex := 5 - absOffset;
     i_image :=
       match ProductCarousel.product product with
       | Some p =>
           match featuredImage p with
           | Some image =>
               Some (image, if isActive product then eager else lazy)
           | None => None
           end
       | None => None
       end |}.

Definition drawWindow (products : list Product) (currentIndex : Z)
  : list Item :=
  JS.mapIndexed (drawItem currentIndex)
    (visibleProducts products currentIndex) 0.

End ProductCarousel.

(** ** ReviewSection.tsx *)

Module ReviewSection.

Section Reviews.

(** [parseFloat] and the numbers it returns are the host's. *)
Variable Number : Type.
Variable parseFloat : string -> Number.

Record Review := {
  id : option string;
  customerName : string;
  customerRole : string;
  customerImage : string;
  rating : Number;
  reviewText : string
}.

(** What is rendered when there is something to render: the heading
    and the three columns. *)
Record View := {
  v_heading : string;
  col1 : list Review;
  col2 : list Review;
  col3 : list Review
}.

Definition getFieldValue (metaobject : Metaobject) (k : string)
  : string :=
  JS.or (option_map Api.value (findField (Api.fields metaobject) k)) "".

(** [field?.references?.nodes] *)
Definition nodesOf (field : option Field)
  : option (list (option Api.Entity)) :=
  match field with
  | Some f =>
      match Api.references f with
      | Some c => Api.nodes c
      | None => None
      end
  | None => None
  end.

Definition getFieldReferences (metaobject : Metaobject) (k : string)
  : list (option Api.Entity) :=
  let field := findField (Api.fields metaobject) k in
  match nodesOf field with
  | Some l => l
  | None => []
  end.

Definition heading m :=
  JS.or (Some (getFieldValue m "heading")) "What Our Customers Say".

Definition reviewNodes m := getFieldReferences m "reviews".

(** [node && node.fields] *)
Definition hasFields (node : option Api.Entity) : bool :=
  match node with
  | Some n => JS.present (Api.fields n)
  | None => false
  end.

Definition getReviewField (review : Api.Entity) (k : string) : string :=
  let field := findField (Api.fields review) k in
  JS.or (option_map Api.value field) "".

Definition getReviewImageField (review : Api.Entity) (k : string)
  : string :=
  let field := findField (Api.fields review) k in
  match field with
  | Some f =>
      match Api.reference f with
      | Some r =>
          match Api.image r with
          | Some img => Api.url img
          | None => ""
          end
      | None => ""
      end
  | None => ""
  end.

Definition avatarUrl (customerName : string) : string :=
  "https://ui-avatars.com/api/?name="
  ++ JS.encodeURIComponent customerName
  ++ "&background=667eea&color=fff&size=100&bold=true".

(** The [map] callback; reading [review.fields] of [null] raises. *)
Definition toReview (review : option Api.Entity) : JS.result Review :=
  match review with
  | Some review =>
      let customerName := getReviewField review "customer_name" in
      let customerRole := getReviewField review "customer_role" in
      let customerImage := getReviewImageField review "customer_img" in
      let rating :=
        parseFloat (JS.or (Some (getReviewField review "rating")) "5") in
      let reviewText := getReviewField review "review_text" in
      Ok {| id := Api.id review;
            customerName := customerName;
            customerRole := customerRole;
            customerImage :=
              JS.or (Some customerImage) (avatarUrl customerName);
            rating := rating;
            reviewText := reviewText |}
  | None => Throw JS.TypeError
  end.

Definition reviewsOf (reviewNodes : list (option Api.Entity))
  : JS.result (list Review) :=
  JS.map toReview (JS.filter hasFields reviewNodes).

Definition reviews m := reviewsOf (reviewNodes m).

(** [reviews.forEach((review, index) => ...)] into three columns. *)
Fixpoint columns (reviews : list Review) (index : nat)
  : list Review * list Review * list Review :=
  match reviews with
  | [] => ([], [], [])
  | review :: rest =>
      let '(column1, column2, column3) := columns rest (S index) in
      if Nat.eqb (index mod 3) 0 then (review :: column1, column2, column3)
      else if Nat.eqb (index mod 3) 1
           then (column1, review :: column2, column3)
           else (column1, column2, review :: column3)
  end.

(** The component: what it writes to the console and what it renders
    ([None] for [return null]). *)
Definition ReviewsSection (metaobject : option Metaobject)
  : JS.result (list string * option View) :=
  let missing :=
    Ok (["[ReviewsSection] metaobject is null or has no fields"], None) in
  match metaobject with
  | Some m =>
      match Api.fields m with
      | Some _ =>
          JS.bind (reviews m) (fun reviews =>
            if Nat.eqb (length reviews) 0 then Ok ([], None)
            else
              let '(column1, column2, column3) := columns reviews 0 in
              Ok ([], Some {| v_heading := heading m;
                              col1 := column1 ++ column1 ++ column1;
                              col2 := column2 ++ column2 ++ column2;
                              col3 := column3 ++ column3 ++ column3 |}))
      | None => missing
      end
  | None => missing
  end.

End Reviews.

Arguments id {Number} r.
Arguments customerName {Number} r.
Arguments customerRole {Number} r.
Arguments customerImage {Number} r.
Arguments rating {Number} r.
Arguments reviewText {Number} r.
Arguments toReview {Number} parseFloat review.
Arguments reviewsOf {Number} parseFloat reviewNodes.
Arguments reviews {Number} parseFloat m.
Arguments columns {Number} reviews index.
Arguments ReviewsSection {Number} parseFloat metaobject.

Section Cards.

(** [Math.floor] on the host's numbers. *)
Variable Number : Type.
Variable floor : Number -> JS.floored.

(** [Array.from({length: 5}, (_, i) => ...)]: the class of each of the
    five stars. *)
Definition renderStars (rating : Number) : list string :=
  List.map
    (fun i =>
       ("star " ++ (if JS.ltFloored i (floor rating) then "filled" else ""))
       %string)
    [0; 1; 2; 3; 4]%Z.

(** What a review card shows: its key, the address and alternative text
    of the avatar, the address the avatar is given when it fails to
    load, the name, the role, the stars and the text. *)
Record Card := {
  c_key : string;
  c_src : string;
  c_alt : string;
  c_onErrorSrc : string;
  c_name : string;
  c_role : string;
  c_stars : list string;
  c_text : string
}.

Definition renderReviewCard (review : Review Number) (index : nat) : Card :=
  {| c_key :=
       (JS.showString (id review) ++ "-" ++ JS.showInt (Z.of_nat index))
       %string;
     c_src := customerImage review;
     c_alt := customerName review;
     c_onErrorSrc := avatarUrl (customerName review);
     c_name := customerName review;
     c_role := customerRole review;
     c_stars := renderStars (rating review);
     c_text := reviewText review |}.

(** [col.map((review, index) => renderReviewCard(review, index))] *)
Definition renderColumn (column : list (Review Number)) : list Card :=
  JS.mapIndexed renderReviewCard column 0.

End Cards.

Arguments renderStars {Number} floor rating.
Arguments renderReviewCard {Number} floor review index.
Arguments renderColumn {Number} floor column.

End ReviewSection.

(** ** The homepage route: loader and page *)

Module Homepage.

Record Shop := { name : string; description : string }.

(** The data of a query response: the shop query fills [shop], the
    section queries fill [metaobject]. *)
Record QueryData := {
  shop : option Shop;
  metaobject : option Metaobject
}.

(** One entry of the array [Promise.allSettled] resolves to. *)
Inductive Settled :=
| Fulfilled (value : option QueryData)
| Rejected (reason : JS.exn).

(** One call of [context.storefront.query]: it raises on the spot, or
    returns a promise, which settles. *)
Inductive Query :=
| Raises (e : JS.exn)
| Promise (outcome : Settled).

Record Args := {
  locale : option string;
  language : string;
  country : string;
  url : string;
  shopQuery : Query;
  heroQuery : Query;
  productQuery : Query;
  reviewsQuery : Query;
  (** reading [process.env.NODE_ENV] *)
  nodeEnv : JS.result (option string)
}.

Section Loader.

(** [seoPayload.home] and [String.prototype.toLowerCase] are not part
    of the route. *)
Variable Seo : Type.
Variable seoHome : string -> Seo.
Variable toLowerCase : string -> string.

Record LoaderData := {
  d_shop : Shop;
  heroParallax : option Metaobject;
  productShowcase : option Metaobject;
  reviewsSection : option Metaobject;
  seo : Seo
}.

(** What the loader does: it returns deferred data, or raises a
    response. *)
Inductive LoaderResult :=
| Deferred (data : LoaderData)
| ResponseThrown (status : Z).

(** The array literal evaluates the four calls from left to right. *)
Definition issue (q : Query) : JS.result Settled :=
  match q with
  | Raises e => Throw e
  | Promise outcome => Ok outcome
  end.

(** [r.status === 'fulfilled' && r.value?.shop ? r.value.shop : ...] *)
Definition shopOf (shopResult : Settled) : Shop :=
  match shopResult with
  | Fulfilled (Some data) =>
      match shop data with
      | Some s => s
      | None => {| name := "Store"; description := "" |}
      end
  | _ => {| name := "Store"; description := "" |}
  end.

(** [r.status === 'fulfilled' && r.value?.metaobject
     ? r.value.metaobject : null] *)
Definition metaobjectOf (result : Settled) : option Metaobject :=
  match result with
  | Fulfilled (Some data) => metaobject data
  | _ => None
  end.

(** The catch clause logs and raises the same error again, so the
    function raises exactly when its body does.  The development
    logging only writes to the console once [process.env.NODE_ENV]
    has been read. *)
Definition loadCriticalData (args : Args) : JS.result LoaderData :=
  JS.bind (issue (shopQuery args)) (fun shopResult =>
  JS.bind (issue (heroQuery args)) (fun heroResult =>
  JS.bind (issue (productQuery args)) (fun productResult =>
  JS.bind (issue (reviewsQuery args)) (fun reviewsResult =>
    let shop := shopOf shopResult in
    let heroParallax := metaobjectOf heroResult in
    let productShowcase := metaobjectOf productResult in
    let reviewsSection := metaobjectOf reviewsResult in
    JS.bind (nodeEnv args) (fun _ =>
      Ok {| d_shop := shop;
            heroParallax := heroParallax;
            productShowcase := productShowcase;
            reviewsSection := reviewsSection;
            seo := seoHome (url args) |}))))).

(** [params.locale && params.locale.toLowerCase() !==
     `${language}-${country}`.toLowerCase()] *)
Definition localeMismatch (args : Args) : bool :=
  match locale args with
  | Some l =>
      JS.truthy l
      && negb (String.eqb (toLowerCase l)
                 (toLowerCase (language args ++ "-" ++ country args)))
  | None => false
  end.

Definition fallback (args : Args) : LoaderData :=
  {| d_shop := {| name := "Store"; description := "" |};
     heroParallax := None;
     productShowcase := None;
     reviewsSection := None;
     seo := seoHome (url args) |}.

Definition loader (args : Args) : LoaderResult :=
  if localeMismatch args then ResponseThrown 404
  else
    match loadCriticalData args with
    | Ok criticalData => Deferred criticalData
    | Throw error => Deferred (fallback args)
    end.

End Loader.

Arguments d_shop {Seo} l.
Arguments heroParallax {Seo} l.
Arguments productShowcase {Seo} l.
Arguments reviewsSection {Seo} l.
Arguments seo {Seo} l.
Arguments Deferred {Seo} data.
Arguments ResponseThrown {Seo} status.
Arguments loadCriticalData {Seo} seoHome args.
Arguments fallback {Seo} seoHome args.
Arguments loader {Seo} seoHome toLowerCase args.

(** The page: a section is rendered from its metaobject, or replaced by
    a placeholder when the loader left its slot [null]. *)
Inductive Slot (A : Type) :=
| Placeholder (text : string)
| Rendered (view : A).
Arguments Placeholder {A} text.
Arguments Rendered {A} view.

(** [m ? <Component metaobject={m} /> : <p>text</p>] *)
Definition slot {A} (m : option Metaobject) (text : string)
    (component : Metaobject -> A) : Slot A :=
  match m with
  | Some m => Rendered (component m)
  | None => Placeholder text
  end.

(** The hero slot of the page. *)
Definition heroSlot (heroParallax : option Metaobject)
  : Slot HeroParallax.View :=
  slot heroParallax "Hero section loading..." HeroParallax.HeroParallax.

(** The product slot of the page, on first render ([currentIndex] is
    initially 0). *)
Definition productSlot (productShowcase : option Metaobject)
  : Slot (JS.result ProductCarousel.View) :=
  slot productShowcase "Products loading..."
    (fun m => ProductCarousel.ProductCarousel (Some m) 0).

(** The reviews slot of the page. *)
Definition reviewsSlot {Number} (parseFloat : string -> Number)
    (reviewsSection : option Metaobject)
  : Slot (JS.result (list string * option (ReviewSection.View Number))) :=
  slot reviewsSection "Reviews loading..."
    (fun m => ReviewSection.ReviewsSection parseFloat (Some m)).

(** The three sections of the page, from the data of the loader. *)
Record Page (Number : Type) := {
  p_hero : Slot HeroParallax.View;
  p_products : Slot (JS.result ProductCarousel.View);
  p_reviews :
    Slot (JS.result (list string * option (ReviewSection.View Number)))
}.
Arguments p_hero {Number} p.
Arguments p_products {Number} p.
Arguments p_reviews {Number} p.

Definition Homepage {Seo Number} (parseFloat : string -> Number)
    (data : LoaderData Seo) : Page Number :=
  {| p_hero := heroSlot (heroParallax data);
     p_products := productSlot (productShowcase data);
     p_reviews := reviewsSlot parseFloat (reviewsSection data) |}.

End Homepage.

(** ** PageLayout.tsx *)

Module PageLayout.

Section Layout.

(** The items of a menu are only read for their [title]. *)
Variable MenuItem : Type.
Variable title : MenuItem -> string.

Record EnhancedMenu := { items : option (list MenuItem) }.

(** The layout: [layout.shop.name] and [layout.headerMenu]. *)
Record Layout := {
  shopName : string;
  headerMenu : option EnhancedMenu
}.

(** [(menu?.items || []).filter((item) => item.title !== 'Contact')],
    the entries of the desktop navigation and of the menu drawer. *)
Definition navItems (menu : option EnhancedMenu) : list MenuItem :=
  JS.filter (fun item => negb (String.eqb (title item) "Contact"))
    (match menu with
     | Some m => match items m with Some l => l | None => [] end
     | None => []
     end).

(** [(title || '').split(' ')], one span of the logo per word. *)
Definition logoWords (shopTitle : string) : list string :=
  JS.split " "%char (JS.or (Some shopTitle) "").

(** What the header shows of its props: the words of the logo, the
    desktop navigation, and the entries of the drawer when there is a
    menu. *)
Record HeaderView := {
  h_words : list string;
  h_nav : list MenuItem;
  h_drawer : option (list MenuItem)
}.

Definition Header (shopTitle : string) (menu : option EnhancedMenu)
  : HeaderView :=
  {| h_words := logoWords shopTitle;
     h_nav := navItems menu;
     h_drawer :=
       match menu with
       | Some m => Some (navItems (Some m))
       | None => None
       end |}.

(** [headerMenu && layout?.shop.name && <Header ... />]: the header, or
    [None] when it is not rendered. *)
Definition PageLayout (layout : option Layout) : option HeaderView :=
  match layout with
  | Some l =>
      match headerMenu l with
      | Some menu =>
          if JS.truthy (shopName l)
          then Some (Header (shopName l) (Some menu))
          else None
      | None => None
      end
  | None => None
  end.

End Layout.

Arguments items {MenuItem} e.
Arguments shopName {MenuItem} l.
Arguments headerMenu {MenuItem} l.
Arguments h_words {MenuItem} h.
Arguments h_nav {MenuItem} h.
Arguments h_drawer {MenuItem} h.
Arguments navItems {MenuItem} title menu.
Arguments Header {MenuItem} title shopTitle menu.
Arguments PageLayout {MenuItem} title layout.

End PageLayout.

(** ** Specification vocabulary: the verdict of a section

    The components have no function that classifies; the verdict is read
    off the branch a component takes. *)

Inductive Verdict := Absent | Empty | Ready.

(** The hero section always renders. *)
Definition heroVerdict (v : HeroParallax.View) : Verdict := Ready.

(** The diagnostic error state, the empty state, the carousel. *)
Definition productVerdict (v : ProductCarousel.View) : Verdict :=
  match v with
  | ProductCarousel.ErrorState => Absent
  | ProductCarousel.EmptyState _ => Empty
  | ProductCarousel.Carousel _ _ _ => Ready
  end.

(** Nothing rendered and an error logged, nothing rendered and nothing
    logged, the columns. *)
Definition reviewsVerdict {Number}
    (out : list string * option (ReviewSection.View Number)) : Verdict :=
  match out with
  | (_, Some _) => Ready
  | ([], None) => Empty
  | (_ :: _, None) => Absent
  end.

(** ** Specification vocabulary: projections

    [output] is a projection of [input] by the predicate [p] and the
    mapper [f]: it is the image, entry by entry, of a sub-list [kept] of
    [input] (entries in their input order) that holds exactly the entries
    of [input] that [p] accepts. *)

Definition projection_of {A B} (p : A -> bool) (f : A -> JS.result B)
    (input : list A) (output : list B) : Prop :=
  exists kept,
    kept `sublist_of` input /\
    (forall x, x ∈ kept <-> x ∈ input /\ p x = true) /\
    Forall2 (fun x y => f x = Ok y) kept output.

(** The metaobject, or its list of fields, is missing. *)
Definition missing (mo : option Metaobject) : Prop :=
  mo = None \/ exists m, mo = Some m /\ Api.fields m = None.

(** The entry of the carousel window at offset [i], by the formula
    [products[(currentIndex + i + n) mod n]] with the mathematical
    remainder. *)
Definition window_entry (products : list ProductCarousel.Product)
    (currentIndex i : Z) : ProductCarousel.VisibleProduct :=
  let n := Z.of_nat (length products) in
  {| ProductCarousel.product :=
       nth_error products (Z.to_nat ((currentIndex + i + n) mod n));
     ProductCarousel.offset := i;
     ProductCarousel.isActive := bool_decide (i = 0%Z) |}.

(** The node has an [id], a [title] and a [priceRange]. *)
Definition has_id_title_price (node : option Api.Entity) : Prop :=
  exists n i t r,
    node = Some n /\ Api.id n = Some i /\ Api.title n = Some t /\
    Api.priceRange n = Some r.

(** The image behind key [k] of a review node is missing: no such field,
    no reference on it, or a reference without image. *)
Definition no_image (n : Api.Entity) (k : string) : Prop :=
  no_field n k
  \/ exists f, first_field n k f /\
       (Api.reference f = None
        \/ exists ref, Api.reference f = Some ref /\ Api.image ref = None).

(** ** Specification vocabulary: positions and occurrences *)

(** The reference node is an object that has a non-empty [id], a
    non-empty [title] and a [priceRange]. *)
Definition complete_node (node : option Api.Entity) : Prop :=
  exists n i t r,
    node = Some n /\
    Api.id n = Some i /\ i <> "" /\
    Api.title n = Some t /\ t <> "" /\
    Api.priceRange n = Some r.

(** [i] is a position of the list of products. *)
Definition in_range (products : list ProductCarousel.Product) (i : Z) : Prop :=
  (0 <= i < Z.of_nat (length products))%Z.

(** [pattern] occurs in [s] between [pre] and [post], and nowhere
    earlier. *)
Definition first_occurrence (pattern s pre post : string) : Prop :=
  s = (pre ++ pattern ++ post)%string /\
  forall pre' post',
    s = (pre' ++ pattern ++ post')%string ->
    String.length pre <= String.length pre'.

(** [pattern] does not occur in [s]. *)
Definition no_occurrence (pattern s : string) : Prop :=
  forall pre post, s <> (pre ++ pattern ++ post)%string.

(** The number of filled stars for a floored rating: the rating cut to
    the range from 0 to 5, and 0 for [NaN]. *)
Definition filled_stars (x : JS.floored) : nat :=
  match x with
  | JS.FNaN => 0
  | JS.FInt z => Z.to_nat (Z.min 5 (Z.max 0 z))
  | JS.FInfinity negative => if negative then 0 else 5
  end.

(** The number of occurrences of the character [c] in [s]. *)
Fixpoint count_char (c : ascii) (s : string) : nat :=
  match s with
  | EmptyString => 0
  | String d s' => (if Ascii.eqb d c then 1 else 0) + count_char c s'
  end.

(** The character [c] occurs in [s]. *)
Definition has_char (c : ascii) (s : string) : Prop :=
  exists pre post, s = (pre ++ String c post)%string.

(** ** Sample data for the examples *)

Module Samples.

(** [parseFloat] on the strings of decimal digits, where it returns the
    integer they denote ([None] elsewhere: the examples parse no other
    string). *)
Fixpoint digits (s : string) (acc : N) : option N :=
  match s with
  | EmptyString => Some acc
  | String c s' =>
      let n := N_of_ascii c in
      if ((48 <=? n) && (n <=? 57))%N
      then digits s' (10 * acc + (n - 48))%N
      else None
  end.

Definition parseDigits (s : string) : option N :=
  match s with
  | EmptyString => None
  | _ => digits s 0%N
  end.

Definition text (k v : string) : option Field :=
  Some (Api.mkField k v None None).

Definition picture : Api.Image :=
  {| Api.url := "https://cdn.example.com/hero.jpg";
     Api.altText := None;
     Api.width := Some 1600%Z;
     Api.height := Some 900%Z |}.

Definition media (k : string) (img : option Api.Image) : option Field :=
  Some (Api.mkField k "" (Some (Api.RefMediaImage img)) None).

Definition metaobjectOf (h : string) (fs : option (list (option Field)))
  : Metaobject :=
  Api.mkEntity (Some ("gid://shopify/Metaobject/" ++ h)%string) None (Some h)
    None None fs.

Definition hero : Metaobject :=
  metaobjectOf "welcome-to-sneaker-store"
    (Some [ text "subheading" "";
            None;
            text "heading" "WELCOME";
            text "heading" "SECOND";
            media "background_image" (Some picture) ]).

(** A metaobject that arrived without its list of fields. *)
Definition bare : Metaobject := metaobjectOf "bare" None.

Definition productNode (i t : option string) (price : option string)
  : option Api.Entity :=
  Some (Api.mkEntity i t (Some "sneaker")
          (option_map
             (fun a => {| Api.minVariantPrice :=
                            {| Api.amount := a; Api.currencyCode := "USD" |} |})
             price)
          None None).

Definition list_field (k : string) (l : list (option Api.Entity))
  : option Field :=
  Some (Api.mkField k "" None (Some {| Api.nodes := Some l |})).

Definition showcaseNodes : list (option Api.Entity) :=
  [ productNode (Some "p1") (Some "Runner") (Some "90.0");
    None;
    productNode (Some "p2") None (Some "10.0");
    productNode (Some "p3") (Some "") (Some "10.0");
    productNode (Some "p4") (Some "Court") None;
    productNode (Some "p5") (Some "Trail") (Some "120.0") ].

Definition showcase : Metaobject :=
  metaobjectOf "our-products"
    (Some [ text "heading" ""; list_field "products" showcaseNodes ]).

(** Fields but no [products] field. *)
Definition welcomeOnly : Metaobject :=
  metaobjectOf "our-products" (Some [ text "heading" "WELCOME" ]).

Definition reviewNode (i : string) (fs : option (list (option Field)))
  : option Api.Entity :=
  Some (Api.mkEntity (Some i) None (Some i) None None fs).

Definition alice : option Api.Entity :=
  reviewNode "r1"
    (Some [ text "customer_name" "Alice"; text "rating" "4";
            media "customer_img" (Some picture);
            text "review_text" "Great" ]).

(** A review without [customer_name], [rating] and [customer_img]. *)
Definition anonymous : Api.Entity :=
  Api.mkEntity (Some "r2") None (Some "r2") None None
    (Some [ text "review_text" "Fine" ]).

Definition bob : option Api.Entity :=
  reviewNode "r3"
    (Some [ text "customer_name" "Bob Ray"; text "rating" "";
            media "customer_img" None ]).

Definition reviewNodes : list (option Api.Entity) :=
  [ alice; Some anonymous; None; reviewNode "r0" None; bob ].

Definition testimonials : Metaobject :=
  metaobjectOf "what-our-customers-say"
    (Some [ list_field "reviews" reviewNodes ]).

Definition sneaker (name : string) : ProductCarousel.Product :=
  {| ProductCarousel.id := Some name;
     ProductCarousel.title := Some name;
     ProductCarousel.priceRange :=
       {| Api.minVariantPrice :=
            {| Api.amount := "50.0"; Api.currencyCode := "USD" |} |};
     ProductCarousel.featuredImage := None;
     ProductCarousel.handle := Some name |}.

Definition twoSneakers : list ProductCarousel.Product :=
  [ sneaker "a"; sneaker "b" ].

(** Lower-casing of the ASCII letters, for the locale of the examples. *)
Definition lowerChar (c : ascii) : ascii :=
  let n := nat_of_ascii c in
  if ((65 <=? n) && (n <=? 90))%nat then ascii_of_nat (n + 32) else c.

Fixpoint lowerAscii (s : string) : string :=
  match s with
  | EmptyString => EmptyString
  | String c s' => String (lowerChar c) (lowerAscii s')
  end.

Definition answer (shop : option Homepage.Shop) (m : option Metaobject)
  : Homepage.Query :=
  Homepage.Promise
    (Homepage.Fulfilled
       (Some {| Homepage.shop := shop; Homepage.metaobject := m |})).

(** A request on which the hero query is rejected and the others are
    answered. *)
Definition heroDown : Homepage.Args :=
  {| Homepage.locale := Some "en-us";
     Homepage.language := "EN";
     Homepage.country := "US";
     Homepage.url := "https://shop.example.com/";
     Homepage.shopQuery :=
       answer (Some {| Homepage.name := "Sneaker Store";
                       Homepage.description := "Shoes" |}) None;
     Homepage.heroQuery :=
       Homepage.Promise (Homepage.Rejected (JS.OtherError "network"));
     Homepage.productQuery := answer None (Some showcase);
     Homepage.reviewsQuery := answer None None;
     Homepage.nodeEnv := Ok (Some "production") |}.

(** A request on which the third call raises before any promise is
    awaited. *)
Definition callRaises : Homepage.Args :=
  {| Homepage.locale := None;
     Homepage.language := "EN";
     Homepage.country := "US";
     Homepage.url := "https://shop.example.com/";
     Homepage.shopQuery := answer None None;
     Homepage.heroQuery := answer None (Some hero);
     Homepage.productQuery := Homepage.Raises JS.TypeError;
     Homepage.reviewsQuery := answer None (Some testimonials);
     Homepage.nodeEnv := Ok None |}.

(** [Math.floor] on the numbers of [parseDigits]. *)
Definition floorDigits (x : option N) : JS.floored :=
  match x with
  | Some n => JS.FInt (Z.of_N n)
  | None => JS.FNaN
  end.

Definition clicks : list ProductCarousel.Event :=
  [ ProductCarousel.ClickNext; ProductCarousel.ClickNext;
    ProductCarousel.ScrollTimeout ProductCarousel.up;
    ProductCarousel.ClickPrevious;
    ProductCarousel.ScrollTimeout ProductCarousel.down ].

Record Entry := { e_id : string; e_title : string; e_to : string }.

Definition mainMenu : PageLayout.EnhancedMenu Entry :=
  {| PageLayout.items :=
       Some [ {| e_id := "1"; e_title := "Shop"; e_to := "/collections" |};
              {| e_id := "2"; e_title := "Contact"; e_to := "/contact" |};
              {| e_id := "3"; e_title := "contact"; e_to := "/faq" |};
              {| e_id := "4"; e_title := "Journal"; e_to := "/journal" |} ] |}.

Definition storeLayout : PageLayout.Layout Entry :=
  {| PageLayout.shopName := "Sneaker  Store";
     PageLayout.headerMenu := Some mainMenu |}.

End Samples.

(** * Properties *)

(** ** The lookup *)

Lemma find_keyIs_Some (k : string) (l : list (option Field)) x :
  List.find (keyIs k) l = Some x ->
  exists f pre post,
    x = Some f /\ l = pre ++ Some f :: post /\ Api.key f = k /\
    forall g, Some g ∈ pre -> Api.key g <> k.
Proof.
  induction l as [|a l IH]; simpl; [discriminate|].
  destruct (keyIs k a) eqn:Ha.
  - intros [= <-]. destruct a as [f|]; [|discriminate].
    exists f, [], l. simpl in Ha. apply String.eqb_eq in Ha.
    repeat split; auto. intros g Hg. inversion Hg.
  - intros Hx. destruct (IH Hx) as (f & pre & post & -> & -> & Hk & Hpre).
    exists f, (a :: pre), post. repeat split; auto.
    intros g Hg. apply elem_of_cons in Hg as [<-|Hg]; [|auto].
    simpl in Ha. apply String.eqb_neq in Ha. exact Ha.
Qed.

Lemma find_keyIs_None (k : string) (l : list (option Field)) :
  List.find (keyIs k) l = None ->
  forall g, Some g ∈ l -> Api.key g <> k.
Proof.
  intros Hnone g Hg. apply list_elem_of_In in Hg.
  pose proof (List.find_none _ _ Hnone _ Hg) as Hk.
  simpl in Hk. apply String.eqb_neq in Hk. exact Hk.
Qed.

Lemma find_keyIs_first (k : string) pre (f : Field) post :
  Api.key f = k ->
  (forall g, Some g ∈ pre -> Api.key g <> k) ->
  List.find (keyIs k) (pre ++ Some f :: post) = Some (Some f).
Proof.
  intros Hk. induction pre as [|a pre IH]; intros Hpre; simpl.
  - rewrite (proj2 (String.eqb_eq _ _) Hk). reflexivity.
  - assert (keyIs k a = false) as ->.
    { destruct a as [g|]; [|reflexivity]. simpl. apply String.eqb_neq.
      apply Hpre. left. }
    apply IH. intros g Hg. apply Hpre. right. exact Hg.
Qed.

Lemma findField_first (m : Metaobject) (k : string) (f : Field) :
  first_field m k f <-> findField (Api.fields m) k = Some f.
Proof.
  unfold first_field, findField, JS.find. split.
  - intros (pre & post & -> & Hk & Hpre).
    rewrite (find_keyIs_first k pre f post Hk Hpre). reflexivity.
  - destruct (Api.fields m) as [l|]; [|discriminate].
    destruct (List.find (keyIs k) l) as [x|] eqn:Hfind; [|discriminate].
    intros ->.
    destruct (find_keyIs_Some k l _ Hfind) as (g & pre & post & [= <-] & H).
    exists pre, post. destruct H as (-> & Hk & Hpre). auto.
Qed.

Lemma findField_none (m : Metaobject) (k : string) :
  no_field m k <-> findField (Api.fields m) k = None.
Proof.
  unfold no_field, findField, JS.find. split.
  - intros Hno. destruct (Api.fields m) as [l|]; [|reflexivity].
    destruct (List.find (keyIs k) l) as [x|] eqn:Hfind; [|reflexivity].
    destruct (find_keyIs_Some k l _ Hfind) as (g & pre & post & -> & -> & Hk & _).
    exfalso. apply (Hno _ g eq_refl); [|exact Hk].
    apply elem_of_app. right. left.
  - intros Hnone l g Hl Hg. rewrite Hl in Hnone.
    destruct (List.find (keyIs k) l) as [x|] eqn:Hfind.
    + destruct (find_keyIs_Some k l _ Hfind) as (f & _ & _ & -> & _).
      discriminate.
    + exact (find_keyIs_None k l Hfind g Hg).
Qed.

(** A lookup either finds the first field with the key or there is none. *)
Lemma lookup_cases (m : Metaobject) (k : string) :
  no_field m k \/ exists f, first_field m k f.
Proof.
  destruct (findField (Api.fields m) k) as [f|] eqn:H.
  - right. exists f. apply findField_first. exact H.
  - left. apply findField_none. exact H.
Qed.

(** The first field with a key is unique. *)
Lemma first_field_unique (m : Metaobject) (k : string) (f g : Field) :
  first_field m k f -> first_field m k g -> f = g.
Proof.
  intros Hf Hg. apply findField_first in Hf, Hg. congruence.
Qed.

Example encodeURIComponent_sample :
  JS.encodeURIComponent "Bob Ray & co/100%" = "Bob%20Ray%20%26%20co%2F100%25"
  /\ JS.encodeURIComponent "a-b_c.d!e~f*g'h(i)" = "a-b_c.d!e~f*g'h(i)".
Proof. split; reflexivity. Qed.

Lemma JS_or_empty (s : string) : JS.or (Some s) "" = s.
Proof.
  unfold JS.or, JS.truthy. destruct (String.eqb s "") eqn:E; simpl; auto.
  apply String.eqb_eq in E. auto.
Qed.

(** ** Field values *)

Lemma getFieldValue_found (m : Metaobject) (k : string) (f : Field) :
  findField (Api.fields m) k = Some f ->
  HeroParallax.getFieldValue m k = Api.value f.
Proof.
  intros H. unfold HeroParallax.getFieldValue. rewrite H. simpl.
  apply JS_or_empty.
Qed.

Lemma getFieldValue_missing (m : Metaobject) (k : string) :
  findField (Api.fields m) k = None ->
  HeroParallax.getFieldValue m k = "".
Proof.
  intros H. unfold HeroParallax.getFieldValue. rewrite H. reflexivity.
Qed.

Example hero_heading_first_wins :
  HeroParallax.heading Samples.hero = "WELCOME"
  /\ HeroParallax.subheading Samples.hero = ""
  /\ HeroParallax.ctaText Samples.hero = ""
  /\ HeroParallax.getFieldValue Samples.hero "Heading" = "".
Proof. repeat split. Qed.

(** C1: in each section component, [getFieldValue m k] is the value of
    the first field of [m] whose key is exactly [k], whatever fields with
    the same key follow; it is the empty string if and only if [m] has no
    field with key [k] or that first field holds the empty string; and it
    is defined on every metaobject and key (one of the two cases always
    applies, nothing is raised). *)
Theorem getFieldValue_first_match (m : Metaobject) (k : string) :
  ProductCarousel.getFieldValue m k = HeroParallax.getFieldValue m k /\
  ReviewSection.getFieldValue m k = HeroParallax.getFieldValue m k /\
  (forall f, first_field m k f ->
             HeroParallax.getFieldValue m k = Api.value f) /\
  (HeroParallax.getFieldValue m k = "" <->
     no_field m k \/ exists f, first_field m k f /\ Api.value f = "") /\
  (no_field m k \/ exists f, first_field m k f).
Proof.
  split; [reflexivity|]. split; [reflexivity|].
  split; [|split; [|apply lookup_cases]].
  - intros f Hf. apply getFieldValue_found, findField_first, Hf.
  - split.
    + intros Hr. destruct (lookup_cases m k) as [Hno|[f Hf]]; [auto|].
      right. exists f. split; [exact Hf|].
      rewrite <- Hr. symmetry.
      apply getFieldValue_found, findField_first, Hf.
    + intros [Hno|(f & Hf & Hv)].
      * apply getFieldValue_missing, findField_none, Hno.
      * rewrite <- Hv. apply getFieldValue_found, findField_first, Hf.
Qed.

(** ** The background image of the hero *)

Lemma getFieldReference_found (m : Metaobject) (k : string) (f : Field) :
  first_field m k f ->
  HeroParallax.getFieldReference m k = Api.reference f.
Proof.
  intros H. apply findField_first in H.
  unfold HeroParallax.getFieldReference. rewrite H. reflexivity.
Qed.

Lemma getFieldReference_missing (m : Metaobject) (k : string) :
  no_field m k -> HeroParallax.getFieldReference m k = None.
Proof.
  intros H. apply findField_none in H.
  unfold HeroParallax.getFieldReference. rewrite H. reflexivity.
Qed.

(** The narrowing only looks at the image payload of the reference. *)
Lemma narrowImage_payload (r : option Api.Reference) :
  HeroParallax.narrowImage r =
  match r with
  | Some ref =>
      match Api.image ref with
      | Some img =>
          Some {| Api.url := Api.url img;
                  Api.altText := Some (JS.or (Api.altText img) "");
                  Api.width := Api.width img;
                  Api.height := Api.height img |}
      | None => None
      end
  | None => None
  end.
Proof. destruct r as [[|[img|]]|]; reflexivity. Qed.

Example hero_background :
  HeroParallax.backgroundImage Samples.hero =
  Some {| Api.url := "https://cdn.example.com/hero.jpg";
          Api.altText := Some "";
          Api.width := Some 1600%Z;
          Api.height := Some 900%Z |}
  /\ HeroParallax.backgroundImage Samples.bare = None
  /\ HeroParallax.narrowImage (Some Api.RefOther) = None
  /\ HeroParallax.narrowImage (Some (Api.RefMediaImage None)) = None.
Proof. repeat split. Qed.

(** C6: resolving the image behind key [k] in the hero
    ([narrowImage] of [getFieldReference m k], which for
    ["background_image"] is [backgroundImage]) gives [null] exactly when
    [m] has no field with key [k], or its first such field has no
    reference, or that reference carries no image payload; otherwise it
    gives the image of the reference in the image shape (its [url],
    [width] and [height], and its [altText] or the empty string).  The
    resolver is total: one of these cases always applies and nothing is
    raised. *)
Theorem backgroundImage_resolution (m : Metaobject) (k : string) :
  (HeroParallax.narrowImage (HeroParallax.getFieldReference m k) = None <->
     no_field m k
     \/ exists f, first_field m k f /\
          (Api.reference f = None
           \/ exists ref, Api.reference f = Some ref /\ Api.image ref = None)) /\
  (forall f ref img,
     first_field m k f -> Api.reference f = Some ref ->
     Api.image ref = Some img ->
     HeroParallax.narrowImage (HeroParallax.getFieldReference m k) =
     Some {| Api.url := Api.url img;
             Api.altText := Some (JS.or (Api.altText img) "");
             Api.width := Api.width img;
             Api.height := Api.height img |}) /\
  HeroParallax.backgroundImage m =
  HeroParallax.narrowImage (HeroParallax.getFieldReference m "background_image").
Proof.
  split; [|split; [|reflexivity]].
  - rewrite narrowImage_payload. split.
    + intros Hnone. destruct (lookup_cases m k) as [Hno|[f Hf]]; [auto|].
      right. exists f. split; [exact Hf|].
      rewrite (getFieldReference_found m k f Hf) in Hnone.
      destruct (Api.reference f) as [ref|]; [|auto].
      right. exists ref. split; [reflexivity|].
      destruct (Api.image ref); [discriminate|reflexivity].
    + intros [Hno|(f & Hf & Hcase)].
      * rewrite (getFieldReference_missing m k Hno). reflexivity.
      * rewrite (getFieldReference_found m k f Hf).
        destruct Hcase as [->|(ref & -> & ->)]; reflexivity.
  - intros f ref img Hf Href Himg.
    rewrite narrowImage_payload, (getFieldReference_found m k f Hf), Href, Himg.
    reflexivity.
Qed.

(** ** Reference lists *)

Lemma getFieldReferences_nodes (m : Metaobject) (k : string) :
  ProductCarousel.getFieldReferences m k =
  match ProductCarousel.nodesOf (findField (Api.fields m) k) with
  | Some l => l
  | None => []
  end.
Proof. reflexivity. Qed.

(** C7: [getFieldReferences m k] is always a list, never [null] or
    [undefined], and it is the same in both components.  When [m] has no
    field with key [k], when its first such field has no [references] (or
    a connection without [nodes]), and when the list of nodes is empty,
    the result is the same empty list; in the remaining case it is the
    list of nodes itself. *)
Theorem getFieldReferences_never_null (m : Metaobject) (k : string) :
  ReviewSection.getFieldReferences m k = ProductCarousel.getFieldReferences m k /\
  (no_field m k -> ProductCarousel.getFieldReferences m k = []) /\
  (forall f, first_field m k f -> Api.references f = None ->
             ProductCarousel.getFieldReferences m k = []) /\
  (forall f c, first_field m k f -> Api.references f = Some c ->
               Api.nodes c = None \/ Api.nodes c = Some [] ->
               ProductCarousel.getFieldReferences m k = []) /\
  (forall f c l, first_field m k f -> Api.references f = Some c ->
                 Api.nodes c = Some l ->
                 ProductCarousel.getFieldReferences m k = l) /\
  (length (ProductCarousel.getFieldReferences m k) = 0 <->
     no_field m k
     \/ exists f, first_field m k f /\
          (Api.references f = None
           \/ exists c, Api.references f = Some c /\
                (Api.nodes c = None \/ Api.nodes c = Some []))).
Proof.
  split; [reflexivity|].
  rewrite (getFieldReferences_nodes m k).
  split; [intros Hno; apply findField_none in Hno; rewrite Hno; reflexivity|].
  split; [intros f Hf Hr; apply findField_first in Hf; rewrite Hf; simpl;
          rewrite Hr; reflexivity|].
  split; [intros f c Hf Hr Hn; apply findField_first in Hf; rewrite Hf; simpl;
          rewrite Hr; destruct Hn as [-> | ->]; reflexivity|].
  split; [intros f c l Hf Hr Hn; apply findField_first in Hf; rewrite Hf; simpl;
          rewrite Hr, Hn; reflexivity|].
  destruct (lookup_cases m k) as [Hno|[f Hf]].
  - pose proof Hno as Hnone. apply findField_none in Hnone. rewrite Hnone.
    simpl. split; auto.
  - pose proof Hf as Hsome. apply findField_first in Hsome. rewrite Hsome.
    simpl. split.
    + intros Hlen. right. exists f. split; [exact Hf|].
      destruct (Api.references f) as [c|]; [|auto].
      right. exists c. split; [reflexivity|].
      destruct (Api.nodes c) as [l|]; [|auto].
      right. destruct l; [reflexivity|discriminate].
    + intros [Hno|(g & Hg & Hcase)].
      * apply findField_none in Hno. congruence.
      * apply findField_first in Hg. assert (g = f) as -> by congruence.
        destruct Hcase as [->|(c & -> & [->| ->])]; reflexivity.
Qed.

(** ** Projections: filter, then map *)

Section Projection.

Context {A B : Type} (p : A -> bool) (f : A -> JS.result B).

Lemma filter_sublist (l : list A) : JS.filter p l `sublist_of` l.
Proof.
  induction l as [|x l IH]; simpl.
  - constructor.
  - destruct (p x); [apply sublist_skip | apply sublist_cons]; exact IH.
Qed.

Lemma elem_of_filter (l : list A) (x : A) :
  x ∈ JS.filter p l <-> x ∈ l /\ p x = true.
Proof.
  unfold JS.filter. rewrite !list_elem_of_In. apply List.filter_In.
Qed.

(** A mapper that raises on no entry of [l] maps the whole list. *)
Lemma map_total (l : list A) :
  (forall x, x ∈ l -> exists y, f x = Ok y) ->
  exists out, JS.map f l = Ok out /\ Forall2 (fun x y => f x = Ok y) l out.
Proof.
  induction l as [|x l IH]; intros Hsafe; simpl.
  - exists []. split; [reflexivity | constructor].
  - destruct (Hsafe x) as [y Hy]; [left|].
    destruct IH as (out & Hout & Hall).
    { intros z Hz. apply Hsafe. right. exact Hz. }
    exists (y :: out). rewrite Hy, Hout. simpl.
    split; [reflexivity | constructor; assumption].
Qed.

(** When the predicate protects the mapper, filter-then-map returns a
    projection, and a projection is no longer than its input. *)
Lemma project_spec (l : list A) :
  (forall x, p x = true -> exists y, f x = Ok y) ->
  exists out,
    JS.map f (JS.filter p l) = Ok out /\
    projection_of p f l out /\
    length out <= length l.
Proof.
  intros Hsafe.
  destruct (map_total (JS.filter p l)) as (out & Hout & Hall).
  { intros x Hx. apply Hsafe. apply elem_of_filter in Hx. tauto. }
  exists out. split; [exact Hout|]. split.
  - exists (JS.filter p l).
    split; [apply filter_sublist|]. split; [apply elem_of_filter | exact Hall].
  - rewrite <- (Forall2_length _ _ _ Hall).
    apply sublist_length, filter_sublist.
Qed.

Lemma projection_image (l : list A) (out : list B) (x : A) :
  projection_of p f l out -> x ∈ l -> p x = true ->
  exists y, y ∈ out /\ f x = Ok y.
Proof.
  intros (kept & _ & Hkept & Hall) Hx Hp.
  assert (x ∈ kept) as Hin by (apply Hkept; auto).
  clear Hkept. induction Hall as [|a b kept out Hab Hall IH].
  - inversion Hin.
  - apply elem_of_cons in Hin as [->|Hin].
    + exists b. split; [left | exact Hab].
    + destruct (IH Hin) as (y & Hy & Hfy). exists y. split; [right|]; auto.
Qed.

Lemma projection_source (l : list A) (out : list B) (y : B) :
  projection_of p f l out -> y ∈ out ->
  exists x, x ∈ l /\ p x = true /\ f x = Ok y.
Proof.
  intros (kept & _ & Hkept & Hall) Hy.
  assert (exists x, x ∈ kept /\ f x = Ok y) as (x & Hx & Hfx).
  { clear Hkept. induction Hall as [|a b kept out Hab Hall IH].
    - inversion Hy.
    - apply elem_of_cons in Hy as [->|Hy].
      + exists a. split; [left | exact Hab].
      + destruct (IH Hy) as (x & Hx & Hfx). exists x. split; [right|]; auto. }
  exists x. apply Hkept in Hx. tauto.
Qed.

End Projection.

Lemma isComplete_present (node : option Api.Entity) :
  ProductCarousel.isComplete node = true ->
  has_id_title_price node /\ ProductCarousel.toProduct node <> Throw JS.TypeError.
Proof.
  destruct node as [n|]; simpl; [|discriminate].
  intros H. apply andb_prop in H as [H Hr]. apply andb_prop in H as [Hi Ht].
  unfold has_id_title_price, ProductCarousel.toProduct.
  destruct (Api.id n) as [i|] eqn:Ei; [|discriminate].
  destruct (Api.title n) as [t|] eqn:Et; [|discriminate].
  destruct (Api.priceRange n) as [r|] eqn:Er; [|discriminate].
  split; [|discriminate].
  exists n, i, t, r. rewrite Ei, Et, Er. auto.
Qed.

Lemma toProduct_safe (node : option Api.Entity) :
  ProductCarousel.isComplete node = true ->
  exists product, ProductCarousel.toProduct node = Ok product.
Proof.
  intros H. apply isComplete_present in H as [(n & i & t & r & -> & _ & _ & Hr) _].
  unfold ProductCarousel.toProduct. rewrite Hr. eauto.
Qed.

Lemma toReview_safe {Number} (parseFloat : string -> Number)
    (node : option Api.Entity) :
  ReviewSection.hasFields node = true ->
  exists review, ReviewSection.toReview parseFloat node = Ok review.
Proof.
  destruct node as [n|]; simpl; [eauto | discriminate].
Qed.

Example showcase_products :
  ProductCarousel.products Samples.showcase =
  Ok [ {| ProductCarousel.id := Some "p1";
          ProductCarousel.title := Some "Runner";
          ProductCarousel.priceRange :=
            {| Api.minVariantPrice :=
                 {| Api.amount := "90.0"; Api.currencyCode := "USD" |} |};
          ProductCarousel.featuredImage := None;
          ProductCarousel.handle := Some "sneaker" |};
       {| ProductCarousel.id := Some "p5";
          ProductCarousel.title := Some "Trail";
          ProductCarousel.priceRange :=
            {| Api.minVariantPrice :=
                 {| Api.amount := "120.0"; Api.currencyCode := "USD" |} |};
          ProductCarousel.featuredImage := None;
          ProductCarousel.handle := Some "sneaker" |} ].
Proof. reflexivity. Qed.

(** C2: the products of [ProductCarousel] and the reviews of
    [ReviewsSection] are projections of their list of reference nodes:
    the call returns a list, no longer than the input, that is the image
    by the mapper of the accepted entries in their input order, and an
    entry the predicate rejects is never among the mapped entries,
    whatever the mapper would make of it.  The same holds of filter-then-map
    for every predicate and every mapper that raises on no accepted
    entry.  A product node is accepted only if it has an [id], a [title]
    and a [priceRange]. *)
Theorem projection_filters_in_order (nodes : list (option Api.Entity)) :
  (forall (A B : Type) (p : A -> bool) (f : A -> JS.result B) (l : list A),
     (forall x, p x = true -> exists y, f x = Ok y) ->
     exists out,
       JS.map f (JS.filter p l) = Ok out /\
       projection_of p f l out /\
       length out <= length l) /\
  (exists products,
     ProductCarousel.productsOf nodes = Ok products /\
     projection_of ProductCarousel.isComplete ProductCarousel.toProduct
       nodes products /\
     length products <= length nodes) /\
  (forall Number (parseFloat : string -> Number),
   exists reviews,
     ReviewSection.reviewsOf parseFloat nodes = Ok reviews /\
     projection_of ReviewSection.hasFields (ReviewSection.toReview parseFloat)
       nodes reviews /\
     length reviews <= length nodes) /\
  (forall node, ProductCarousel.isComplete node = true ->
                has_id_title_price node).
Proof.
  split; [|split; [|split]].
  - intros A B p f l. apply project_spec.
  - apply project_spec, toProduct_safe.
  - intros Number parseFloat. apply project_spec, toReview_safe.
  - intros node H. apply isComplete_present, H.
Qed.

(** ** Reviews *)

Section ReviewFacts.

Context {Number : Type} (parseFloat : string -> Number).

Lemma reviewsOf_projection (nodes : list (option Api.Entity)) :
  exists reviews,
    ReviewSection.reviewsOf parseFloat nodes = Ok reviews /\
    projection_of ReviewSection.hasFields (ReviewSection.toReview parseFloat)
      nodes reviews.
Proof.
  destruct (project_spec ReviewSection.hasFields
              (ReviewSection.toReview parseFloat) nodes)
    as (reviews & H1 & H2 & _).
  - apply toReview_safe.
  - exists reviews. auto.
Qed.

Lemma hasFields_iff (node : option Api.Entity) :
  ReviewSection.hasFields node = true <->
  exists n, node = Some n /\ Api.fields n <> None.
Proof.
  destruct node as [n|]; simpl.
  - split.
    + intros H. exists n. split; [reflexivity|].
      intros E. rewrite E in H. discriminate.
    + intros (n' & E & H). injection E as <-.
      destruct (Api.fields n); [reflexivity | contradiction].
  - split; [discriminate|]. intros (n & H & _). discriminate.
Qed.

(** A node with a list of fields survives, and its review is what the
    mapper makes of it. *)
Lemma review_kept nodes reviews (n : Api.Entity) :
  projection_of ReviewSection.hasFields (ReviewSection.toReview parseFloat)
    nodes reviews ->
  Some n ∈ nodes -> Api.fields n <> None ->
  exists r, r ∈ reviews /\ ReviewSection.toReview parseFloat (Some n) = Ok r.
Proof.
  intros Hproj Hin Hfields.
  apply (projection_image _ _ nodes reviews (Some n) Hproj Hin).
  apply hasFields_iff. eauto.
Qed.

Lemma getReviewField_found (n : Api.Entity) (k : string) (f : Field) :
  first_field n k f -> ReviewSection.getReviewField n k = Api.value f.
Proof. intros H. apply (getFieldValue_found n k f), findField_first, H. Qed.

Lemma getReviewField_missing (n : Api.Entity) (k : string) :
  no_field n k -> ReviewSection.getReviewField n k = "".
Proof. intros H. apply (getFieldValue_missing n k), findField_none, H. Qed.

Lemma getReviewImageField_missing (n : Api.Entity) (k : string) :
  no_image n k -> ReviewSection.getReviewImageField n k = "".
Proof.
  unfold ReviewSection.getReviewImageField.
  intros [Hno|(f & Hf & Hcase)].
  - apply findField_none in Hno. rewrite Hno. reflexivity.
  - apply findField_first in Hf. rewrite Hf.
    destruct Hcase as [->|(ref & -> & ->)]; reflexivity.
Qed.

Lemma avatarUrl_not_empty (name : string) :
  ReviewSection.avatarUrl name <> "".
Proof. unfold ReviewSection.avatarUrl. simpl. discriminate. Qed.

Lemma or_not_empty (s fallback : string) :
  fallback <> "" -> JS.or (Some s) fallback <> "".
Proof.
  intros Hf. unfold JS.or, JS.truthy.
  destruct (String.eqb s "") eqn:E; simpl; [exact Hf|].
  apply String.eqb_neq in E. exact E.
Qed.

End ReviewFacts.

Example testimonials_reviews :
  ReviewSection.reviews Samples.parseDigits Samples.testimonials =
  Ok [ {| ReviewSection.id := Some "r1";
          ReviewSection.customerName := "Alice";
          ReviewSection.customerRole := "";
          ReviewSection.customerImage := "https://cdn.example.com/hero.jpg";
          ReviewSection.rating := Some 4%N;
          ReviewSection.reviewText := "Great" |};
       {| ReviewSection.id := Some "r2";
          ReviewSection.customerName := "";
          ReviewSection.customerRole := "";
          ReviewSection.customerImage :=
            "https://ui-avatars.com/api/?name=&background=667eea&color=fff&size=100&bold=true";
          ReviewSection.rating := Some 5%N;
          ReviewSection.reviewText := "Fine" |};
       {| ReviewSection.id := Some "r3";
          ReviewSection.customerName := "Bob Ray";
          ReviewSection.customerRole := "";
          ReviewSection.customerImage :=
            "https://ui-avatars.com/api/?name=Bob%20Ray&background=667eea&color=fff&size=100&bold=true";
          ReviewSection.rating := Some 5%N;
          ReviewSection.reviewText := "" |} ].
Proof. reflexivity. Qed.



(** C8: every review of the resolved list has a non-empty
    [customerImage]; and for a surviving node whose [customer_img] field
    is missing, has no reference, or has a reference without image, the
    [customerImage] of its review is the ui-avatars.com address built
    from the URL-encoded [customerName]. *)
Theorem customerImage_never_empty {Number}
    (parseFloat : string -> Number) (nodes : list (option Api.Entity)) :
  exists reviews,
    ReviewSection.reviewsOf parseFloat nodes = Ok reviews /\
    (forall r, r ∈ reviews -> ReviewSection.customerImage r <> "") /\
    (forall n, Some n ∈ nodes -> Api.fields n <> None ->
       exists r, r ∈ reviews /\
         ReviewSection.toReview parseFloat (Some n) = Ok r /\
         (no_image n "customer_img" ->
          ReviewSection.customerImage r =
          ("https://ui-avatars.com/api/?name="
           ++ JS.encodeURIComponent (ReviewSection.customerName r)
           ++ "&background=667eea&color=fff&size=100&bold=true")%string)).
Proof.
  destruct (reviewsOf_projection parseFloat nodes) as (reviews & Hrev & Hproj).
  exists reviews. split; [exact Hrev|]. split.
  - intros r Hr.
    destruct (projection_source _ _ nodes reviews r Hproj Hr)
      as (node & _ & _ & Hmap).
    destruct node as [n|]; [|discriminate].
    simpl in Hmap. injection Hmap as <-. simpl.
    apply or_not_empty, avatarUrl_not_empty.
  - intros n Hin Hfields.
    destruct (review_kept parseFloat nodes reviews n Hproj Hin Hfields)
      as (r & Hr & Hmap).
    exists r. split; [exact Hr|]. split; [exact Hmap|].
    intros Himg. simpl in Hmap. injection Hmap as <-. simpl.
    rewrite (getReviewImageField_missing n _ Himg). reflexivity.
Qed.

(** C10: for every review node that survives the filter, the rating of
    its review is [parseFloat "5"], the number 5, when the node has no
    [rating] field or its first [rating] field holds the empty string,
    and [parseFloat] of the value of that field otherwise. *)
Theorem rating_defaults_to_five {Number}
    (parseFloat : string -> Number) (nodes : list (option Api.Entity)) :
  exists reviews,
    ReviewSection.reviewsOf parseFloat nodes = Ok reviews /\
    (forall n, Some n ∈ nodes -> Api.fields n <> None ->
       exists r, r ∈ reviews /\
         ReviewSection.toReview parseFloat (Some n) = Ok r /\
         (no_field n "rating"
          \/ (exists f, first_field n "rating" f /\ Api.value f = "") ->
          ReviewSection.rating r = parseFloat "5") /\
         (forall f, first_field n "rating" f -> Api.value f <> "" ->
                    ReviewSection.rating r = parseFloat (Api.value f))).
Proof.
  destruct (reviewsOf_projection parseFloat nodes) as (reviews & Hrev & Hproj).
  exists reviews. split; [exact Hrev|].
  intros n Hin Hfields.
  destruct (review_kept parseFloat nodes reviews n Hproj Hin Hfields)
    as (r & Hr & Hmap).
  exists r. split; [exact Hr|]. split; [exact Hmap|].
  simpl in Hmap. injection Hmap as <-. simpl. split.
  - intros [Hno|(f & Hf & Hv)].
    + rewrite (getReviewField_missing n _ Hno). reflexivity.
    + rewrite (getReviewField_found n _ f Hf), Hv. reflexivity.
  - intros f Hf Hv. rewrite (getReviewField_found n _ f Hf).
    f_equal. unfold JS.or, JS.truthy.
    apply String.eqb_neq in Hv. rewrite Hv. reflexivity.
Qed.

(** ** The carousel window *)

Lemma rem_window (c i n : Z) :
  (0 < n)%Z -> (0 <= c)%Z -> (-2 <= i)%Z ->
  JS.rem (c + i + n) n = Some ((c + i + n) mod n)%Z.
Proof.
  intros Hn Hc Hi. unfold JS.rem.
  destruct (Z.eqb_spec n 0) as [?|_]; [lia|]. f_equal.
  destruct (Z.eq_dec n 1%Z) as [->|Hn1].
  - rewrite Z.rem_1_r, Z.mod_1_r. reflexivity.
  - apply Z.rem_mod_nonneg; lia.
Qed.

Lemma index_mod {A} (l : list A) (x : Z) :
  l <> [] ->
  JS.index l (Some (x mod Z.of_nat (length l))%Z) =
  nth_error l (Z.to_nat (x mod Z.of_nat (length l))) /\
  exists a, nth_error l (Z.to_nat (x mod Z.of_nat (length l))) = Some a.
Proof.
  intros Hne.
  assert (0 < Z.of_nat (length l))%Z as Hn by (destruct l; [congruence | simpl; lia]).
  pose proof (Z.mod_pos_bound x _ Hn) as Hb. split.
  - simpl. destruct (Z.ltb_spec (x mod Z.of_nat (length l)) 0); [lia | reflexivity].
  - destruct (nth_error l (Z.to_nat (x mod Z.of_nat (length l)))) as [a|] eqn:E.
    + eauto.
    + apply nth_error_None in E. lia.
Qed.

Lemma visible_entry (products : list ProductCarousel.Product) (c i : Z) :
  products <> [] -> (0 <= c)%Z -> (-2 <= i)%Z ->
  {| ProductCarousel.product :=
       JS.index products
         (JS.rem (c + i + Z.of_nat (length products))
                 (Z.of_nat (length products)));
     ProductCarousel.offset := i;
     ProductCarousel.isActive := Z.eqb i 0 |}
  = window_entry products c i
  /\ exists p, ProductCarousel.product (window_entry products c i) = Some p.
Proof.
  intros Hne Hc Hi.
  assert (0 < Z.of_nat (length products))%Z as Hn
      by (destruct products; [congruence | simpl; lia]).
  rewrite (rem_window c i _ Hn Hc Hi).
  destruct (index_mod products (c + i + Z.of_nat (length products)) Hne)
    as [Hidx Hsome].
  rewrite Hidx. unfold window_entry. simpl. split; [|exact Hsome].
  f_equal. destruct (Z.eqb_spec i 0) as [->|Hne0].
  - reflexivity.
  - symmetry. apply bool_decide_eq_false. exact Hne0.
Qed.

(** The navigation handlers keep the index inside the list. *)
Lemma navigation_in_range (products : list ProductCarousel.Product) (prev : Z) :
  products <> [] -> (0 <= prev < Z.of_nat (length products))%Z ->
  (exists next, ProductCarousel.handleNext products prev = Some next /\
                (0 <= next < Z.of_nat (length products))%Z) /\
  (0 <= ProductCarousel.handlePrevious products prev
   < Z.of_nat (length products))%Z.
Proof.
  intros Hne Hprev. split.
  - unfold ProductCarousel.handleNext, JS.rem.
    destruct (Z.eqb_spec (Z.of_nat (length products)) 0) as [?|_]; [lia|].
    eexists. split; [reflexivity|].
    rewrite Z.rem_mod_nonneg by lia. apply Z.mod_pos_bound. lia.
  - unfold ProductCarousel.handlePrevious.
    destruct (Z.eqb_spec prev 0); lia.
Qed.

(** C9: for a non-empty list of [n] resolved products and a current
    index (a position, so not negative), the window is the five entries
    at offsets -2, -1, 0, 1, 2 in this order; the entry at offset [i]
    holds [products[(currentIndex + i + n) mod n]], which exists, and it
    is active exactly when [i] is 0. *)
Theorem visibleProducts_window (products : list ProductCarousel.Product)
    (currentIndex : Z) :
  products <> [] -> (0 <= currentIndex)%Z ->
  ProductCarousel.visibleProducts products currentIndex =
    [ window_entry products currentIndex (-2);
      window_entry products currentIndex (-1);
      window_entry products currentIndex 0;
      window_entry products currentIndex 1;
      window_entry products currentIndex 2 ] /\
  Forall (fun v =>
            (exists p, ProductCarousel.product v = Some p) /\
            (ProductCarousel.isActive v = true <->
             ProductCarousel.offset v = 0%Z))
         (ProductCarousel.visibleProducts products currentIndex).
Proof.
  intros Hne Hc.
  assert (forall i, (-2 <= i)%Z ->
            (exists p, ProductCarousel.product
                         (window_entry products currentIndex i) = Some p) /\
            (ProductCarousel.isActive (window_entry products currentIndex i)
               = true <->
             ProductCarousel.offset (window_entry products currentIndex i)
               = 0%Z)) as Hentry.
  { intros i Hi. split.
    - apply (visible_entry products currentIndex i Hne Hc Hi).
    - simpl. apply bool_decide_eq_true. }
  assert (ProductCarousel.visibleProducts products currentIndex =
    [ window_entry products currentIndex (-2);
      window_entry products currentIndex (-1);
      window_entry products currentIndex 0;
      window_entry products currentIndex 1;
      window_entry products currentIndex 2 ]) as Heq.
  { unfold ProductCarousel.visibleProducts. cbn [List.map].
    rewrite (proj1 (visible_entry products currentIndex (-2) Hne Hc ltac:(lia))).
    rewrite (proj1 (visible_entry products currentIndex (-1) Hne Hc ltac:(lia))).
    rewrite (proj1 (visible_entry products currentIndex 0 Hne Hc ltac:(lia))).
    rewrite (proj1 (visible_entry products currentIndex 1 Hne Hc ltac:(lia))).
    rewrite (proj1 (visible_entry products currentIndex 2 Hne Hc ltac:(lia))).
    reflexivity. }
  split; [exact Heq|]. rewrite Heq.
  repeat (constructor; [apply Hentry; lia|]). constructor.
Qed.

(** With two products the window repeats them around the current one. *)
Lemma visibleProducts_window_two :
  ProductCarousel.visibleProducts Samples.twoSneakers 1 =
    [ {| ProductCarousel.product := Some (Samples.sneaker "b");
         ProductCarousel.offset := -2;
         ProductCarousel.isActive := false |};
      {| ProductCarousel.product := Some (Samples.sneaker "a");
         ProductCarousel.offset := -1;
         ProductCarousel.isActive := false |};
      {| ProductCarousel.product := Some (Samples.sneaker "b");
         ProductCarousel.offset := 0;
         ProductCarousel.isActive := true |};
      {| ProductCarousel.product := Some (Samples.sneaker "a");
         ProductCarousel.offset := 1;
         ProductCarousel.isActive := false |};
      {| ProductCarousel.product := Some (Samples.sneaker "b");
         ProductCarousel.offset := 2;
         ProductCarousel.isActive := false |} ].
Proof.
  refine (proj1 (visibleProducts_window Samples.twoSneakers 1 _ _)).
  - discriminate.
  - lia.
Defined.

(** ** The verdict of a section *)

Lemma missing_Some (m : Metaobject) :
  missing (Some m) <-> Api.fields m = None.
Proof.
  unfold missing. split.
  - intros [H|(m' & H & Hf)]; [discriminate|]. injection H as <-. exact Hf.
  - intros H. right. exists m. auto.
Qed.

Lemma products_total (m : Metaobject) :
  exists products, ProductCarousel.products m = Ok products.
Proof.
  destruct (project_spec ProductCarousel.isComplete ProductCarousel.toProduct
              (ProductCarousel.productNodes m) toProduct_safe)
    as (products & H & _).
  exists products. exact H.
Qed.

(** The three render paths of [ProductCarousel]. *)
Lemma ProductCarousel_cases (mo : option Metaobject) (currentIndex : Z) :
  (missing mo /\
   ProductCarousel.ProductCarousel mo currentIndex =
   Ok ProductCarousel.ErrorState)
  \/ (exists m l, mo = Some m /\ Api.fields m = Some l /\
        ProductCarousel.products m = Ok [] /\
        ProductCarousel.ProductCarousel mo currentIndex =
        Ok (ProductCarousel.EmptyState (Api.handle m)))
  \/ (exists m l p products, mo = Some m /\ Api.fields m = Some l /\
        ProductCarousel.products m = Ok (p :: products) /\
        ProductCarousel.ProductCarousel mo currentIndex =
        Ok (ProductCarousel.Carousel (ProductCarousel.heading m)
              (ProductCarousel.visibleProducts (p :: products) currentIndex)
              (JS.index (p :: products) (Some currentIndex)))).
Proof.
  destruct mo as [m|]; [|left; split; [left|]; reflexivity].
  unfold ProductCarousel.ProductCarousel.
  destruct (Api.fields m) as [l|] eqn:Hf.
  - right. destruct (products_total m) as ([|p products] & Hp); rewrite Hp.
    + left. exists m, l. auto.
    + right. exists m, l, p, products. auto.
  - left. split; [apply missing_Some, Hf | reflexivity].
Qed.

(** The three render paths of [ReviewsSection]. *)
Lemma ReviewsSection_cases {Number} (parseFloat : string -> Number)
    (mo : option Metaobject) :
  (missing mo /\
   ReviewSection.ReviewsSection parseFloat mo =
   Ok (["[ReviewsSection] metaobject is null or has no fields"], None))
  \/ (exists m l, mo = Some m /\ Api.fields m = Some l /\
        ReviewSection.reviews parseFloat m = Ok [] /\
        ReviewSection.ReviewsSection parseFloat mo = Ok ([], None))
  \/ (exists m l r reviews view, mo = Some m /\ Api.fields m = Some l /\
        ReviewSection.reviews parseFloat m = Ok (r :: reviews) /\
        ReviewSection.ReviewsSection parseFloat mo = Ok ([], Some view)).
Proof.
  destruct mo as [m|]; [|left; split; [left|]; reflexivity].
  unfold ReviewSection.ReviewsSection.
  destruct (Api.fields m) as [l|] eqn:Hf.
  - right.
    destruct (reviewsOf_projection parseFloat (ReviewSection.reviewNodes m))
      as ([|r reviews] & Hr & _);
      unfold ReviewSection.reviews; rewrite Hr.
    + left. exists m, l. auto.
    + right. simpl.
      destruct (ReviewSection.columns reviews 1) as [[c1 c2] c3].
      exists m, l, r, reviews. eexists. auto.
  - left. split; [apply missing_Some, Hf | reflexivity].
Qed.

Example showcase_without_products_is_empty :
  ProductCarousel.ProductCarousel (Some Samples.welcomeOnly) 0 =
  Ok (ProductCarousel.EmptyState (Some "our-products"))
  /\ ProductCarousel.ProductCarousel None 0 = Ok ProductCarousel.ErrorState
  /\ ProductCarousel.ProductCarousel (Some Samples.bare) 0 =
     Ok ProductCarousel.ErrorState.
Proof. repeat split. Qed.

(** C4, as stated, fails for the hero section: [Samples.bare] is a
    metaobject without a list of fields, and [HeroParallax] renders it as
    any other, with empty texts and no image; on the page its slot is the
    rendered section, not the placeholder.  The verdict is not Absent. *)
Lemma hero_without_fields_is_rendered :
  missing (Some Samples.bare) /\
  HeroParallax.HeroParallax Samples.bare =
    {| HeroParallax.v_heading := "";
       HeroParallax.v_subheading := "";
       HeroParallax.v_ctaText := "";
       HeroParallax.v_ctaUrl := "";
       HeroParallax.v_backgroundImage := None |} /\
  Homepage.heroSlot (Some Samples.bare) =
    Homepage.Rendered (HeroParallax.HeroParallax Samples.bare) /\
  heroVerdict (HeroParallax.HeroParallax Samples.bare) <> Absent.
Proof.
  split; [right; exists Samples.bare; split; reflexivity|].
  split; [reflexivity|]. split; [reflexivity|]. discriminate.
Qed.

(** C4, amended: [ProductCarousel] and [ReviewsSection] return without
    raising on every input, and classify it.  If the metaobject or its
    list of fields is missing the verdict is Absent ([ProductCarousel]
    renders the diagnostic error state; [ReviewsSection] logs an error
    and renders nothing), and Absent occurs in no other case.  If the
    fields exist the verdict is Empty exactly when the collection
    projects to no entry ([ProductCarousel] renders the empty state with
    the handle; [ReviewsSection] renders nothing and logs nothing).
    [HeroParallax] does not classify: it is given a metaobject (the page
    shows a placeholder instead when the slot is null), and without a
    list of fields it renders with every text empty and no image. *)
Theorem section_classification :
  (forall (mo : option Metaobject) (currentIndex : Z),
   exists view,
     ProductCarousel.ProductCarousel mo currentIndex = Ok view /\
     (productVerdict view = Absent <-> missing mo) /\
     (missing mo -> view = ProductCarousel.ErrorState) /\
     (forall m, mo = Some m -> Api.fields m <> None ->
        (productVerdict view = Empty <-> ProductCarousel.products m = Ok []) /\
        (ProductCarousel.products m = Ok [] ->
         view = ProductCarousel.EmptyState (Api.handle m)))) /\
  (forall Number (parseFloat : string -> Number) (mo : option Metaobject),
   exists out,
     ReviewSection.ReviewsSection parseFloat mo = Ok out /\
     (reviewsVerdict out = Absent <-> missing mo) /\
     (missing mo ->
      out = (["[ReviewsSection] metaobject is null or has no fields"], None)) /\
     (forall m, mo = Some m -> Api.fields m <> None ->
        (reviewsVerdict out = Empty <->
         ReviewSection.reviews parseFloat m = Ok []) /\
        (ReviewSection.reviews parseFloat m = Ok [] -> out = ([], None)))) /\
  (forall m : Metaobject,
     heroVerdict (HeroParallax.HeroParallax m) = Ready /\
     Homepage.heroSlot (Some m) = Homepage.Rendered (HeroParallax.HeroParallax m) /\
     Homepage.heroSlot None = Homepage.Placeholder "Hero section loading..." /\
     (Api.fields m = None ->
      HeroParallax.HeroParallax m =
      {| HeroParallax.v_heading := "";
         HeroParallax.v_subheading := "";
         HeroParallax.v_ctaText := "";
         HeroParallax.v_ctaUrl := "";
         HeroParallax.v_backgroundImage := None |})).
Proof.
  split; [|split].
  - intros mo currentIndex.
    destruct (ProductCarousel_cases mo currentIndex)
      as [[Hmiss Hrun]
         |[(m & l & -> & Hf & Hp & Hrun)
          |(m & l & p & products & -> & Hf & Hp & Hrun)]];
      rewrite Hrun; eexists; (split; [reflexivity|]); simpl.
    + split; [tauto|]. split; [reflexivity|].
      intros m -> Hfields. apply missing_Some in Hmiss. contradiction.
    + split; [split; [discriminate | rewrite missing_Some; congruence]|].
      split; [rewrite missing_Some; congruence|].
      intros m' [= <-] _. tauto.
    + split; [split; [discriminate | rewrite missing_Some; congruence]|].
      split; [rewrite missing_Some; congruence|].
      intros m' [= <-] _. rewrite Hp.
      split; [split|]; discriminate.
  - intros Number parseFloat mo.
    destruct (ReviewsSection_cases parseFloat mo)
      as [[Hmiss Hrun]
         |[(m & l & -> & Hf & Hr & Hrun)
          |(m & l & r & reviews & view & -> & Hf & Hr & Hrun)]];
      rewrite Hrun; eexists; (split; [reflexivity|]); simpl.
    + split; [tauto|]. split; [reflexivity|].
      intros m -> Hfields. apply missing_Some in Hmiss. contradiction.
    + split; [split; [discriminate | rewrite missing_Some; congruence]|].
      split; [rewrite missing_Some; congruence|].
      intros m' [= <-] _. tauto.
    + split; [split; [discriminate | rewrite missing_Some; congruence]|].
      split; [rewrite missing_Some; congruence|].
      intros m' [= <-] _. rewrite Hr.
      split; [split|]; discriminate.
  - intros m. split; [reflexivity|]. split; [reflexivity|].
    split; [reflexivity|].
    intros Hf. unfold HeroParallax.HeroParallax, HeroParallax.heading,
      HeroParallax.subheading, HeroParallax.ctaText, HeroParallax.ctaUrl,
      HeroParallax.backgroundImage, HeroParallax.backgroundImageReference,
      HeroParallax.getFieldValue, HeroParallax.getFieldReference.
    rewrite Hf. reflexivity.
Qed.

(** ** The homepage loader *)

Section LoaderFacts.

Context {Seo : Type} (seoHome : string -> Seo).

(** When every call returns a promise and the environment can be read,
    the critical data holds one slot per settled outcome. *)
Lemma loadCriticalData_settled (args : Homepage.Args) s h p r env :
  Homepage.shopQuery args = Homepage.Promise s ->
  Homepage.heroQuery args = Homepage.Promise h ->
  Homepage.productQuery args = Homepage.Promise p ->
  Homepage.reviewsQuery args = Homepage.Promise r ->
  Homepage.nodeEnv args = Ok env ->
  Homepage.loadCriticalData seoHome args =
  Ok {| Homepage.d_shop := Homepage.shopOf s;
        Homepage.heroParallax := Homepage.metaobjectOf h;
        Homepage.productShowcase := Homepage.metaobjectOf p;
        Homepage.reviewsSection := Homepage.metaobjectOf r;
        Homepage.seo := seoHome (Homepage.url args) |}.
Proof.
  intros Hs Hh Hp Hr Henv. unfold Homepage.loadCriticalData.
  rewrite Hs, Hh, Hp, Hr, Henv. reflexivity.
Qed.

(** A slot is null unless its own query was fulfilled with a
    metaobject. *)
Lemma metaobjectOf_cases (outcome : Homepage.Settled) :
  match outcome with
  | Homepage.Rejected _ => Homepage.metaobjectOf outcome = None
  | Homepage.Fulfilled None => Homepage.metaobjectOf outcome = None
  | Homepage.Fulfilled (Some data) =>
      Homepage.metaobjectOf outcome = Homepage.metaobject data
  end.
Proof. destruct outcome as [[data|]|e]; reflexivity. Qed.

End LoaderFacts.

Example loader_when_a_call_raises :
  Homepage.loadCriticalData (fun u => u) Samples.callRaises = Throw JS.TypeError
  /\ Homepage.loader (fun u => u) Samples.lowerAscii Samples.callRaises =
     Homepage.Deferred
       {| Homepage.d_shop :=
            {| Homepage.name := "Store"; Homepage.description := "" |};
          Homepage.heroParallax := None;
          Homepage.productShowcase := None;
          Homepage.reviewsSection := None;
          Homepage.seo := "https://shop.example.com/" |}.
Proof. split; reflexivity. Qed.

(** C5: on a request whose locale is accepted the loader always returns
    deferred data.  When the four calls return promises, each slot of the
    data is read from the settled outcome of its own query alone: a
    rejected hero query leaves the hero slot null and a product query
    fulfilled with a metaobject puts that metaobject in the product slot,
    whatever the other outcomes are.  When the critical-data step raises,
    the loader returns the shop [{name: 'Store', description: ''}] with
    the three section slots null. *)
Theorem loader_degrades_per_query {Seo} (seoHome : string -> Seo)
    (toLowerCase : string -> string) (args : Homepage.Args) :
  Homepage.localeMismatch toLowerCase args = false ->
  exists data,
    Homepage.loader seoHome toLowerCase args = Homepage.Deferred data /\
    (forall s h p r env,
       Homepage.shopQuery args = Homepage.Promise s ->
       Homepage.heroQuery args = Homepage.Promise h ->
       Homepage.productQuery args = Homepage.Promise p ->
       Homepage.reviewsQuery args = Homepage.Promise r ->
       Homepage.nodeEnv args = Ok env ->
       Homepage.loadCriticalData seoHome args = Ok data /\
       Homepage.d_shop data = Homepage.shopOf s /\
       Homepage.heroParallax data = Homepage.metaobjectOf h /\
       Homepage.productShowcase data = Homepage.metaobjectOf p /\
       Homepage.reviewsSection data = Homepage.metaobjectOf r /\
       (forall e, h = Homepage.Rejected e ->
                  Homepage.heroParallax data = None) /\
       (forall answer m,
          p = Homepage.Fulfilled (Some answer) ->
          Homepage.metaobject answer = Some m ->
          Homepage.productShowcase data = Some m)) /\
    (forall e,
       Homepage.loadCriticalData seoHome args = Throw e ->
       data =
       {| Homepage.d_shop :=
            {| Homepage.name := "Store"; Homepage.description := "" |};
          Homepage.heroParallax := None;
          Homepage.productShowcase := None;
          Homepage.reviewsSection := None;
          Homepage.seo := seoHome (Homepage.url args) |}).
Proof.
  intros Hlocale. unfold Homepage.loader. rewrite Hlocale.
  destruct (Homepage.loadCriticalData seoHome args) as [data|error] eqn:Hload.
  - exists data. split; [reflexivity|]. split; [|discriminate].
    intros s h p r env Hs Hh Hp Hr Henv.
    rewrite (loadCriticalData_settled seoHome args s h p r env Hs Hh Hp Hr Henv)
      in Hload.
    injection Hload as <-. simpl.
    repeat (split; [reflexivity|]). split.
    + intros e ->. reflexivity.
    + intros answer m -> Hm. exact Hm.
  - eexists. split; [reflexivity|]. split; [|reflexivity].
    intros s h p r env Hs Hh Hp Hr Henv.
    rewrite (loadCriticalData_settled seoHome args s h p r env Hs Hh Hp Hr Henv)
      in Hload.
    discriminate.
Qed.

(** The hero query is rejected, the product query is answered: the page
    data holds the showcase and a null hero slot. *)
Lemma loader_degrades_hero_down :
  Homepage.localeMismatch Samples.lowerAscii Samples.heroDown = false /\
  exists data,
    Homepage.loader (fun u => u) Samples.lowerAscii Samples.heroDown =
      Homepage.Deferred data /\
    Homepage.heroParallax data = None /\
    Homepage.productShowcase data = Some Samples.showcase.
Proof.
  split; [reflexivity|].
  destruct (loader_degrades_per_query (fun u => u) Samples.lowerAscii
              Samples.heroDown eq_refl) as (data & Hrun & Hsettled & _).
  exists data. split; [exact Hrun|].
  destruct (Hsettled _ _ _ _ _ eq_refl eq_refl eq_refl eq_refl eq_refl)
    as (_ & _ & Hhero & Hproduct & _).
  rewrite Hhero, Hproduct. split; reflexivity.
Defined.

(** * Further properties of the sections *)

(** ** Navigation of the carousel *)

Lemma handleNext_in_range (products : list ProductCarousel.Product) (i : Z) :
  in_range products i ->
  ProductCarousel.handleNext products i =
    Some ((i + 1) mod Z.of_nat (length products))%Z /\
  in_range products ((i + 1) mod Z.of_nat (length products))%Z.
Proof.
  unfold in_range, ProductCarousel.handleNext, JS.rem. intros Hi.
  destruct (Z.eqb_spec (Z.of_nat (length products)) 0) as [?|_]; [lia|].
  rewrite Z.rem_mod_nonneg by lia.
  split; [reflexivity | apply Z.mod_pos_bound; lia].
Qed.

Lemma handlePrevious_in_range (products : list ProductCarousel.Product) (i : Z) :
  in_range products i ->
  ProductCarousel.handlePrevious products i =
    ((i - 1) mod Z.of_nat (length products))%Z /\
  in_range products (ProductCarousel.handlePrevious products i).
Proof.
  unfold in_range, ProductCarousel.handlePrevious. intros Hi.
  destruct (Z.eqb_spec i 0) as [->|Hne].
  - split; [|lia].
    replace (0 - 1)%Z with (-1)%Z by lia.
    apply Z.mod_unique with (q := (-1)%Z); lia.
  - split; [|lia]. symmetry. apply Z.mod_small. lia.
Qed.

Lemma scrollUpdate_handlers (products : list ProductCarousel.Product)
    (direction : ProductCarousel.Direction) (i : Z) :
  ProductCarousel.scrollUpdate products direction i =
  match direction with
  | ProductCarousel.down => ProductCarousel.handleNext products i
  | ProductCarousel.up => Some (ProductCarousel.handlePrevious products i)
  end.
Proof. destruct direction; reflexivity. Qed.

Lemma step_in_range (products : list ProductCarousel.Product)
    (s : ProductCarousel.State) (e : ProductCarousel.Event) :
  in_range products (ProductCarousel.currentIndex s) ->
  exists s',
    ProductCarousel.step products s e = Some s' /\
    in_range products (ProductCarousel.currentIndex s') /\
    ProductCarousel.prevIndex s' = ProductCarousel.currentIndex s.
Proof.
  intros Hi.
  destruct (handleNext_in_range products _ Hi) as [Hnext Hnext_range].
  destruct (handlePrevious_in_range products _ Hi) as [_ Hprev_range].
  destruct e as [| |direction]; unfold ProductCarousel.step;
    rewrite ?scrollUpdate_handlers; [| |destruct direction];
    rewrite ?Hnext; cbn [option_map];
    eexists; (split; [reflexivity|]); cbn [ProductCarousel.currentIndex
      ProductCarousel.prevIndex]; auto.
Qed.

(** X1: whatever arrows are clicked and scroll timeouts fire, on a non-empty
    list of products the index state is always defined and both
    [currentIndex] and [prevIndex] stay positions of the list. *)
Theorem carousel_index_stays_in_range
    (products : list ProductCarousel.Product)
    (events : list ProductCarousel.Event) :
  products <> [] ->
  exists s,
    ProductCarousel.run products ProductCarousel.initial events = Some s /\
    in_range products (ProductCarousel.currentIndex s) /\
    in_range products (ProductCarousel.prevIndex s).
Proof.
  intros Hne.
  assert (in_range products 0) as H0.
  { unfold in_range. destruct products; [congruence | simpl; lia]. }
  assert (forall s,
            in_range products (ProductCarousel.currentIndex s) ->
            in_range products (ProductCarousel.prevIndex s) ->
            exists s',
              ProductCarousel.run products s events = Some s' /\
              in_range products (ProductCarousel.currentIndex s') /\
              in_range products (ProductCarousel.prevIndex s')) as Hrun.
  { induction events as [|e events IH]; intros s Hc Hp; simpl.
    - exists s. auto.
    - destruct (step_in_range products s e Hc) as (s' & -> & Hc' & Hp').
      apply IH; [exact Hc' | rewrite Hp'; exact Hc]. }
  apply Hrun; exact H0.
Qed.

Lemma carousel_index_after_clicks :
  exists s,
    ProductCarousel.run Samples.twoSneakers ProductCarousel.initial
      Samples.clicks = Some s /\
    in_range Samples.twoSneakers (ProductCarousel.currentIndex s) /\
    in_range Samples.twoSneakers (ProductCarousel.prevIndex s).
Proof.
  apply (carousel_index_stays_in_range Samples.twoSneakers Samples.clicks).
  discriminate.
Defined.

Example carousel_after_clicks :
  ProductCarousel.run Samples.twoSneakers ProductCarousel.initial
    Samples.clicks =
  Some {| ProductCarousel.currentIndex := 1; ProductCarousel.prevIndex := 0 |}.
Proof. reflexivity. Qed.

(** X2: on a position of the list, the two arrows undo each other:
    previous after next, and next after previous, give back the index;
    and a scroll timeout does what the arrow of its direction does. *)
Theorem next_and_previous_are_inverse
    (products : list ProductCarousel.Product) (i : Z) :
  in_range products i ->
  (exists j, ProductCarousel.handleNext products i = Some j /\
             ProductCarousel.handlePrevious products j = i) /\
  ProductCarousel.handleNext products
    (ProductCarousel.handlePrevious products i) = Some i /\
  ProductCarousel.scrollUpdate products ProductCarousel.down i =
    ProductCarousel.handleNext products i /\
  ProductCarousel.scrollUpdate products ProductCarousel.up i =
    Some (ProductCarousel.handlePrevious products i).
Proof.
  intros Hi. pose proof Hi as Hi'. unfold in_range in Hi'.
  destruct (handleNext_in_range products i Hi) as [Hnext Hnext_range].
  destruct (handlePrevious_in_range products i Hi) as [Hprev Hprev_range].
  split; [|split; [|split; reflexivity]].
  - eexists. split; [exact Hnext|].
    destruct (handlePrevious_in_range products _ Hnext_range) as [-> _].
    rewrite Zminus_mod_idemp_l.
    replace (i + 1 - 1)%Z with i by lia. apply Z.mod_small. lia.
  - destruct (handleNext_in_range products _ Hprev_range) as [-> _].
    rewrite Hprev, Zplus_mod_idemp_l.
    replace (i - 1 + 1)%Z with i by lia. f_equal. apply Z.mod_small. lia.
Qed.

Lemma next_and_previous_on_two_sneakers :
  (exists j, ProductCarousel.handleNext Samples.twoSneakers 1 = Some j /\
             ProductCarousel.handlePrevious Samples.twoSneakers j = 1%Z) /\
  ProductCarousel.handleNext Samples.twoSneakers
    (ProductCarousel.handlePrevious Samples.twoSneakers 1) = Some 1%Z /\
  ProductCarousel.scrollUpdate Samples.twoSneakers ProductCarousel.down 1 =
    ProductCarousel.handleNext Samples.twoSneakers 1 /\
  ProductCarousel.scrollUpdate Samples.twoSneakers ProductCarousel.up 1 =
    Some (ProductCarousel.handlePrevious Samples.twoSneakers 1).
Proof.
  apply (next_and_previous_are_inverse Samples.twoSneakers 1).
  unfold in_range. simpl. lia.
Defined.

Lemma run_next (products : list ProductCarousel.Product)
    (s : ProductCarousel.State) (k : nat) :
  in_range products (ProductCarousel.currentIndex s) ->
  exists s',
    ProductCarousel.run products s (repeat ProductCarousel.ClickNext k)
      = Some s' /\
    ProductCarousel.currentIndex s' =
      ((ProductCarousel.currentIndex s + Z.of_nat k)
         mod Z.of_nat (length products))%Z.
Proof.
  revert s. induction k as [|k IH]; intros s Hi.
  - exists s. split; [reflexivity|].
    rewrite Z.add_0_r. symmetry. apply Z.mod_small. exact Hi.
  - destruct (handleNext_in_range products _ Hi) as [Hnext Hrange].
    cbn [repeat ProductCarousel.run ProductCarousel.step].
    rewrite Hnext. cbn [option_map].
    destruct (IH {| ProductCarousel.currentIndex :=
                      ((ProductCarousel.currentIndex s + 1)
                         mod Z.of_nat (length products))%Z;
                    ProductCarousel.prevIndex :=
                      ProductCarousel.currentIndex s |} Hrange)
      as (s' & Hrun & Hs').
    exists s'. split; [exact Hrun|]. rewrite Hs'.
    cbn [ProductCarousel.currentIndex].
    rewrite Zplus_mod_idemp_l. f_equal. lia.
Qed.

Lemma run_previous (products : list ProductCarousel.Product)
    (s : ProductCarousel.State) (k : nat) :
  in_range products (ProductCarousel.currentIndex s) ->
  exists s',
    ProductCarousel.run products s (repeat ProductCarousel.ClickPrevious k)
      = Some s' /\
    ProductCarousel.currentIndex s' =
      ((ProductCarousel.currentIndex s - Z.of_nat k)
         mod Z.of_nat (length products))%Z.
Proof.
  revert s. induction k as [|k IH]; intros s Hi.
  - exists s. split; [reflexivity|].
    rewrite Z.sub_0_r. symmetry. apply Z.mod_small. exact Hi.
  - destruct (handlePrevious_in_range products _ Hi) as [Hprev Hrange].
    cbn [repeat ProductCarousel.run ProductCarousel.step].
    destruct (IH {| ProductCarousel.currentIndex :=
                      ProductCarousel.handlePrevious products
                        (ProductCarousel.currentIndex s);
                    ProductCarousel.prevIndex :=
                      ProductCarousel.currentIndex s |} Hrange)
      as (s' & Hrun & Hs').
    exists s'. split; [exact Hrun|]. rewrite Hs'.
    cbn [ProductCarousel.currentIndex]. rewrite Hprev.
    rewrite Zminus_mod_idemp_l. f_equal. lia.
Qed.

(** X3: from a position [i] of a list of [n] products, [k] clicks on the
    next arrow lead to [(i + k) mod n] and [k] clicks on the previous
    arrow to [(i - k) mod n]; in particular [n] clicks on either arrow
    come back to [i]. *)
Theorem arrows_cycle_through_products
    (products : list ProductCarousel.Product) (s : ProductCarousel.State)
    (k : nat) :
  in_range products (ProductCarousel.currentIndex s) ->
  (exists s',
     ProductCarousel.run products s (repeat ProductCarousel.ClickNext k)
       = Some s' /\
     ProductCarousel.currentIndex s' =
       ((ProductCarousel.currentIndex s + Z.of_nat k)
          mod Z.of_nat (length products))%Z) /\
  (exists s',
     ProductCarousel.run products s (repeat ProductCarousel.ClickPrevious k)
       = Some s' /\
     ProductCarousel.currentIndex s' =
       ((ProductCarousel.currentIndex s - Z.of_nat k)
          mod Z.of_nat (length products))%Z) /\
  (exists s',
     ProductCarousel.run products s
       (repeat ProductCarousel.ClickNext (length products)) = Some s' /\
     ProductCarousel.currentIndex s' = ProductCarousel.currentIndex s) /\
  (exists s',
     ProductCarousel.run products s
       (repeat ProductCarousel.ClickPrevious (length products)) = Some s' /\
     ProductCarousel.currentIndex s' = ProductCarousel.currentIndex s).
Proof.
  intros Hi. pose proof Hi as Hi'. unfold in_range in Hi'.
  split; [apply run_next, Hi|]. split; [apply run_previous, Hi|]. split.
  - destruct (run_next products s (length products) Hi) as (s' & Hrun & Hs').
    exists s'. split; [exact Hrun|]. rewrite Hs'.
    rewrite <- (Z.mul_1_l (Z.of_nat (length products))) at 1.
    rewrite Z.mod_add by lia. apply Z.mod_small. lia.
  - destruct (run_previous products s (length products) Hi)
      as (s' & Hrun & Hs').
    exists s'. split; [exact Hrun|]. rewrite Hs'.
    replace (ProductCarousel.currentIndex s - Z.of_nat (length products))%Z
      with (ProductCarousel.currentIndex s
            + (-1) * Z.of_nat (length products))%Z by lia.
    rewrite Z.mod_add by lia. apply Z.mod_small. lia.
Qed.

Lemma arrows_cycle_through_two_sneakers :
  exists s',
    ProductCarousel.run Samples.twoSneakers ProductCarousel.initial
      (repeat ProductCarousel.ClickNext 3) = Some s' /\
    ProductCarousel.currentIndex s' = 1%Z.
Proof.
  exact (proj1 (arrows_cycle_through_products Samples.twoSneakers
                  ProductCarousel.initial 3 ltac:(unfold in_range; simpl; lia))).
Defined.

(** ** The window and the navigation *)

Lemma index_in_range (products : list ProductCarousel.Product) (i : Z) :
  in_range products i -> exists p, JS.index products (Some i) = Some p.
Proof.
  unfold in_range, JS.index. intros Hi.
  destruct (Z.ltb_spec i 0) as [?|_]; [lia|].
  destruct (nth_error products (Z.to_nat i)) as [p|] eqn:E; [eauto|].
  apply nth_error_None in E. lia.
Qed.

(** X4: at a position of the list, the product of the info card (the
    entry of the list at the current index) is the product of the active
    entry of the window, and the entries right and left of it hold the
    products the next and the previous arrow lead to. *)
Theorem window_follows_navigation
    (products : list ProductCarousel.Product) (currentIndex : Z) :
  in_range products currentIndex ->
  exists centre next,
    JS.index products (Some currentIndex) = Some centre /\
    ProductCarousel.handleNext products currentIndex = Some next /\
    nth_error (ProductCarousel.visibleProducts products currentIndex) 2 =
      Some {| ProductCarousel.product := Some centre;
              ProductCarousel.offset := 0;
              ProductCarousel.isActive := true |} /\
    nth_error (ProductCarousel.visibleProducts products currentIndex) 3 =
      Some {| ProductCarousel.product := JS.index products (Some next);
              ProductCarousel.offset := 1;
              ProductCarousel.isActive := false |} /\
    nth_error (ProductCarousel.visibleProducts products currentIndex) 1 =
      Some {| ProductCarousel.product :=
                JS.index products
                  (Some (ProductCarousel.handlePrevious products currentIndex));
              ProductCarousel.offset := -1;
              ProductCarousel.isActive := false |}.
Proof.
  intros Hi. pose proof Hi as Hi'. unfold in_range in Hi'.
  destruct (handleNext_in_range products _ Hi) as [Hnext _].
  destruct (handlePrevious_in_range products _ Hi) as [Hprev _].
  destruct (index_in_range products _ Hi) as [centre Hcentre].
  exists centre. eexists. split; [exact Hcentre|]. split; [exact Hnext|].
  unfold ProductCarousel.visibleProducts. cbn [List.map nth_error].
  rewrite !rem_window by lia. rewrite Hprev.
  replace ((currentIndex + 0 + Z.of_nat (length products))
             mod Z.of_nat (length products))%Z with currentIndex.
  2:{ rewrite Z.add_0_r.
      rewrite <- (Z.mul_1_l (Z.of_nat (length products))) at 1.
      rewrite Z.mod_add by lia. symmetry. apply Z.mod_small. lia. }
  replace ((currentIndex + 1 + Z.of_nat (length products))
             mod Z.of_nat (length products))%Z
    with ((currentIndex + 1) mod Z.of_nat (length products))%Z.
  2:{ rewrite <- (Z.mul_1_l (Z.of_nat (length products))) at 2.
      rewrite Z.mod_add by lia. reflexivity. }
  replace ((currentIndex + -1 + Z.of_nat (length products))
             mod Z.of_nat (length products))%Z
    with ((currentIndex - 1) mod Z.of_nat (length products))%Z.
  2:{ rewrite <- (Z.mul_1_l (Z.of_nat (length products))) at 2.
      rewrite Z.mod_add by lia. f_equal. }
  rewrite Hcentre. repeat split; reflexivity.
Qed.

Lemma window_follows_navigation_two_sneakers :
  exists centre next,
    JS.index Samples.twoSneakers (Some 1%Z) = Some centre /\
    ProductCarousel.handleNext Samples.twoSneakers 1 = Some next /\
    nth_error (ProductCarousel.visibleProducts Samples.twoSneakers 1) 2 =
      Some {| ProductCarousel.product := Some centre;
              ProductCarousel.offset := 0;
              ProductCarousel.isActive := true |} /\
    nth_error (ProductCarousel.visibleProducts Samples.twoSneakers 1) 3 =
      Some {| ProductCarousel.product :=
                JS.index Samples.twoSneakers (Some next);
              ProductCarousel.offset := 1;
              ProductCarousel.isActive := false |} /\
    nth_error (ProductCarousel.visibleProducts Samples.twoSneakers 1) 1 =
      Some {| ProductCarousel.product :=
                JS.index Samples.twoSneakers
                  (Some (ProductCarousel.handlePrevious Samples.twoSneakers 1));
              ProductCarousel.offset := -1;
              ProductCarousel.isActive := false |}.
Proof.
  apply (window_follows_navigation Samples.twoSneakers 1).
  unfold in_range. simpl. lia.
Defined.

(** ** Strings *)

Lemma string_length_append (a b : string) :
  String.length (a ++ b) = String.length a + String.length b.
Proof. induction a as [|c a IH]; simpl; [reflexivity | rewrite IH; reflexivity]. Qed.

Lemma string_append_assoc (a b c : string) :
  ((a ++ b) ++ c)%string = (a ++ (b ++ c))%string.
Proof. induction a as [|x a IH]; simpl; [reflexivity | rewrite IH; reflexivity]. Qed.

Lemma string_append_empty_r (a : string) : (a ++ "")%string = a.
Proof. induction a as [|x a IH]; simpl; [reflexivity | rewrite IH; reflexivity]. Qed.

(** Two ways to cut a string with ends of the same length agree. *)
Lemma string_append_same_suffix_length (a b x y : string) :
  (a ++ x)%string = (b ++ y)%string ->
  String.length x = String.length y ->
  a = b /\ x = y.
Proof.
  revert b. induction a as [|c a IH]; intros b Heq Hlen.
  - destruct b as [|d b]; [auto|].
    simpl in Heq. rewrite Heq in Hlen. simpl in Hlen.
    rewrite string_length_append in Hlen. lia.
  - destruct b as [|d b].
    + simpl in Heq. rewrite <- Heq in Hlen. simpl in Hlen.
      rewrite string_length_append in Hlen. lia.
    + simpl in Heq. injection Heq as -> Heq.
      destruct (IH b Heq Hlen) as [-> ->]. auto.
Qed.

Lemma string_append_inj_l (a x y : string) :
  (a ++ x)%string = (a ++ y)%string -> x = y.
Proof.
  induction a as [|c a IH]; simpl; [auto|]. intros [= H]. auto.
Qed.

(** ** The entries of the window as drawn *)

Lemma drawItem_key_idx (c : Z) (v w : ProductCarousel.VisibleProduct)
    (i j : nat) :
  i < 10 -> j < 10 ->
  ProductCarousel.i_key (ProductCarousel.drawItem c v i) =
  ProductCarousel.i_key (ProductCarousel.drawItem c w j) ->
  i = j.
Proof.
  intros Hi Hj. unfold ProductCarousel.drawItem. cbn [ProductCarousel.i_key].
  intros Heq.
  apply string_append_same_suffix_length in Heq as [_ Heq].
  - do 10 (destruct i as [|i]; [do 10 (destruct j as [|j];
      [first [reflexivity | discriminate Heq]|]); lia|]). lia.
  - rewrite !string_length_append.
    do 10 (destruct i as [|i]; [do 10 (destruct j as [|j];
      [reflexivity|]); lia|]). lia.
Qed.

(** X5: the five entries of the window are drawn with pairwise distinct
    keys, even when one product fills several of them.  The centre entry
    alone is active: it is unshifted, at full scale and opacity and on
    top (z-index 5); the entries at the same distance from it share
    z-index and opacity, which decrease with the distance; and an image
    is loaded eagerly only in the centre entry. *)
Theorem window_drawing (products : list ProductCarousel.Product)
    (currentIndex : Z) :
  NoDup (List.map ProductCarousel.i_key
           (ProductCarousel.drawWindow products currentIndex)) /\
  List.map ProductCarousel.i_translateX
    (ProductCarousel.drawWindow products currentIndex)
    = [-640; -320; 0; 320; 640]%Z /\
  List.map ProductCarousel.i_zIndex
    (ProductCarousel.drawWindow products currentIndex) = [3; 4; 5; 4; 3]%Z /\
  List.map ProductCarousel.i_opacity
    (ProductCarousel.drawWindow products currentIndex)
    = [3 # 10; 1 # 2; 1; 1 # 2; 3 # 10]%Q /\
  List.map ProductCarousel.i_scale
    (ProductCarousel.drawWindow products currentIndex)
    = [7 # 10; 7 # 10; 1; 7 # 10; 7 # 10]%Q /\
  List.map ProductCarousel.i_className
    (ProductCarousel.drawWindow products currentIndex)
    = [ "product-item-infinite "; "product-item-infinite ";
        "product-item-infinite active fade-in-center center-pulse";
        "product-item-infinite "; "product-item-infinite " ] /\
  (forall item image,
     item ∈ ProductCarousel.drawWindow products currentIndex ->
     ProductCarousel.i_image item = Some (image, ProductCarousel.eager) ->
     ProductCarousel.i_zIndex item = 5%Z).
Proof.
  unfold ProductCarousel.drawWindow, ProductCarousel.visibleProducts.
  cbn [List.map JS.mapIndexed].
  split; [|repeat (split; [reflexivity|])].
  - repeat (apply NoDup_cons; split;
            [ rewrite ?elem_of_cons; intros H;
              repeat (destruct H as [H|H];
                      [apply drawItem_key_idx in H; lia|]);
              inversion H
            | ]).
    apply NoDup_nil_2.
  - intros item image Hin Himage.
    repeat (apply elem_of_cons in Hin as [->|Hin];
            [ first [ reflexivity
                    | cbn in Himage;
                      repeat match type of Himage with
                             | context [match ?x with _ => _ end] => destruct x
                             end; discriminate Himage ]
            | ]).
    inversion Hin.
Qed.

(** ** The resolved products *)

Lemma getFieldReferences_nodes_missing (m : Metaobject) (k : string) :
  ReviewSection.getFieldReferences m k = ProductCarousel.getFieldReferences m k
  /\ (no_field m k -> ProductCarousel.getFieldReferences m k = []).
Proof.
  split; [reflexivity|]. intros Hno. apply findField_none in Hno.
  unfold ProductCarousel.getFieldReferences. rewrite Hno. reflexivity.
Qed.

Lemma productsOf_projection (nodes : list (option Api.Entity)) :
  exists products,
    ProductCarousel.productsOf nodes = Ok products /\
    projection_of ProductCarousel.isComplete ProductCarousel.toProduct
      nodes products.
Proof.
  destruct (project_spec ProductCarousel.isComplete ProductCarousel.toProduct
              nodes toProduct_safe) as (products & H1 & H2 & _).
  exists products. auto.
Qed.

Lemma truthy_not_empty (s : string) : JS.truthy s = true <-> s <> "".
Proof.
  unfold JS.truthy. rewrite negb_true_iff. apply String.eqb_neq.
Qed.

Lemma toProduct_complete (node : option Api.Entity)
    (p : ProductCarousel.Product) :
  ProductCarousel.isComplete node = true ->
  ProductCarousel.toProduct node = Ok p ->
  exists n i t r,
    node = Some n /\
    Api.id n = Some i /\ i <> "" /\ ProductCarousel.id p = Some i /\
    Api.title n = Some t /\ t <> "" /\ ProductCarousel.title p = Some t /\
    Api.priceRange n = Some r /\ ProductCarousel.priceRange p = r /\
    ProductCarousel.featuredImage p = Api.featuredImage n /\
    ProductCarousel.handle p = Api.handle n.
Proof.
  destruct node as [n|]; simpl; [|discriminate].
  intros H. apply andb_prop in H as [H Hr]. apply andb_prop in H as [Hi Ht].
  destruct (Api.id n) as [i|] eqn:Ei; [|discriminate].
  destruct (Api.title n) as [t|] eqn:Et; [|discriminate].
  destruct (Api.priceRange n) as [r|] eqn:Er; [|discriminate].
  intros [= <-]. exists n, i, t, r. simpl in Hi, Ht.
  apply truthy_not_empty in Hi, Ht. simpl.
  repeat (split; [first [reflexivity | assumption]|]).
  split; [|auto]. destruct r as [[a c]]. reflexivity.
Qed.

(** X6: every resolved product comes from a node of the references that
    has a non-empty [id], a non-empty [title] and a price range; the
    product carries that [id], [title] and price, and the [handle] and
    [featuredImage] of the node as they are, present or not. *)
Theorem resolved_products_are_complete (nodes : list (option Api.Entity)) :
  exists products,
    ProductCarousel.productsOf nodes = Ok products /\
    forall p, p ∈ products ->
      exists n i t r,
        Some n ∈ nodes /\
        Api.id n = Some i /\ i <> "" /\ ProductCarousel.id p = Some i /\
        Api.title n = Some t /\ t <> "" /\ ProductCarousel.title p = Some t /\
        Api.priceRange n = Some r /\ ProductCarousel.priceRange p = r /\
        ProductCarousel.featuredImage p = Api.featuredImage n /\
        ProductCarousel.handle p = Api.handle n.
Proof.
  destruct (productsOf_projection nodes) as (products & Hrun & Hproj).
  exists products. split; [exact Hrun|]. intros p Hp.
  destruct (projection_source _ _ nodes products p Hproj Hp)
    as (node & Hin & Hcomplete & Hmap).
  destruct (toProduct_complete node p Hcomplete Hmap)
    as (n & i & t & r & -> & H).
  exists n, i, t, r. split; [exact Hin | exact H].
Qed.

(** The filter of the products accepts exactly the nodes that have a
    non-empty [id], a non-empty [title] and a [priceRange]. *)
Lemma isComplete_iff (node : option Api.Entity) :
  ProductCarousel.isComplete node = true <-> complete_node node.
Proof.
  unfold complete_node. split.
  - intros H. destruct (toProduct_safe node H) as [p Hp].
    destruct (toProduct_complete node p H Hp)
      as (n & i & t & r & -> & Hi & Hi' & _ & Ht & Ht' & _ & Hr & _).
    exists n, i, t, r. repeat split; assumption.
  - intros (n & i & t & r & -> & Hi & Hi' & Ht & Ht' & Hr).
    cbn [ProductCarousel.isComplete]. rewrite Hi, Ht, Hr.
    cbn [JS.truthy_opt JS.present].
    rewrite (proj2 (truthy_not_empty i) Hi'), (proj2 (truthy_not_empty t) Ht').
    reflexivity.
Qed.

(** X7: given a metaobject with a list of fields, [ProductCarousel]
    draws the carousel when some node of its [products] references has a
    non-empty [id], a non-empty [title] and a [priceRange], and the
    empty state (with the handle of the metaobject) when no node has all
    three, in particular when there is no [products] field. *)
Theorem carousel_needs_a_complete_node (m : Metaobject) (currentIndex : Z) :
  Api.fields m <> None ->
  ((exists node, node ∈ ProductCarousel.productNodes m /\
                 complete_node node) ->
   exists products,
     ProductCarousel.products m = Ok products /\ products <> [] /\
     ProductCarousel.ProductCarousel (Some m) currentIndex =
     Ok (ProductCarousel.Carousel (ProductCarousel.heading m)
           (ProductCarousel.visibleProducts products currentIndex)
           (JS.index products (Some currentIndex)))) /\
  ((forall node, node ∈ ProductCarousel.productNodes m ->
                 ~ complete_node node) ->
   ProductCarousel.ProductCarousel (Some m) currentIndex =
   Ok (ProductCarousel.EmptyState (Api.handle m))) /\
  (no_field m "products" ->
   ProductCarousel.ProductCarousel (Some m) currentIndex =
   Ok (ProductCarousel.EmptyState (Api.handle m))).
Proof.
  intros Hfields.
  destruct (productsOf_projection (ProductCarousel.productNodes m))
    as (products & Hrun & Hproj).
  fold (ProductCarousel.products m) in Hrun.
  assert ((forall node, node ∈ ProductCarousel.productNodes m ->
                        ~ complete_node node) ->
          ProductCarousel.ProductCarousel (Some m) currentIndex =
          Ok (ProductCarousel.EmptyState (Api.handle m))) as Hnone.
  { intros Hall.
    destruct (ProductCarousel_cases (Some m) currentIndex)
      as [[Hmiss _]
         |[(m' & l & [= <-] & _ & _ & Hshow)
          |(m' & l & p & ps & [= <-] & _ & Hp & _)]].
    - apply missing_Some in Hmiss. contradiction.
    - exact Hshow.
    - rewrite Hrun in Hp. injection Hp as ->.
      destruct (projection_source _ _ _ _ p Hproj) as (node & Hin & Hc & _);
        [left|].
      apply isComplete_iff in Hc. exfalso. exact (Hall node Hin Hc). }
  split; [|split; [exact Hnone|]].
  - intros (node & Hin & Hcomplete). apply isComplete_iff in Hcomplete.
    destruct (projection_image _ _ _ _ node Hproj Hin Hcomplete)
      as (p & Hp & _).
    destruct (ProductCarousel_cases (Some m) currentIndex)
      as [[Hmiss _]
         |[(m' & l & [= <-] & _ & Hempty & _)
          |(m' & l & q & ps & [= <-] & _ & Hps & Hshow)]].
    + apply missing_Some in Hmiss. contradiction.
    + rewrite Hrun in Hempty. injection Hempty as ->. inversion Hp.
    + exists (q :: ps). split; [exact Hps|]. split; [discriminate | exact Hshow].
  - intros Hno. apply Hnone. intros node Hin.
    unfold ProductCarousel.productNodes in Hin.
    rewrite (proj2 (getFieldReferences_nodes_missing m "products") Hno) in Hin.
    inversion Hin.
Qed.

(** The showcase, which has complete nodes among incomplete ones, is
    drawn as a carousel; a metaobject with a heading and no [products]
    field shows the empty state. *)
Lemma carousel_of_showcase_and_of_no_products :
  (exists products,
     ProductCarousel.products Samples.showcase = Ok products /\
     products <> [] /\
     ProductCarousel.ProductCarousel (Some Samples.showcase) 0 =
     Ok (ProductCarousel.Carousel (ProductCarousel.heading Samples.showcase)
           (ProductCarousel.visibleProducts products 0)
           (JS.index products (Some 0%Z)))) /\
  ProductCarousel.ProductCarousel (Some Samples.welcomeOnly) 0 =
  Ok (ProductCarousel.EmptyState (Some "our-products")).
Proof.
  split.
  - apply (carousel_needs_a_complete_node Samples.showcase 0);
      [discriminate|].
    exists (Samples.productNode (Some "p5") (Some "Trail") (Some "120.0")).
    split.
    + apply list_elem_of_In. cbv. tauto.
    + eexists _, "p5", "Trail", _.
      repeat (split; [first [reflexivity | discriminate]|]). reflexivity.
  - apply (carousel_needs_a_complete_node Samples.welcomeOnly 0).
    + discriminate.
    + apply findField_none. reflexivity.
Defined.

Example showcase_drops_incomplete_nodes :
  List.map ProductCarousel.isComplete Samples.showcaseNodes =
  [true; false; false; false; false; true].
Proof. reflexivity. Qed.

(** ** Headings *)

Lemma or_default (s fallback : string) :
  (s <> "" -> JS.or (Some s) fallback = s) /\
  (s = "" -> JS.or (Some s) fallback = fallback).
Proof.
  unfold JS.or, JS.truthy. split.
  - intros H. apply String.eqb_neq in H. rewrite H. reflexivity.
  - intros ->. reflexivity.
Qed.

(** X8: the heading of the product section and of the reviews section
    is never blank: it is the value of the first [heading] field when
    that value is not empty, and the fixed title of the section when the
    field is missing or empty. *)
Theorem section_headings_are_never_blank (m : Metaobject) :
  ProductCarousel.heading m <> "" /\
  ReviewSection.heading m <> "" /\
  (forall f, first_field m "heading" f -> Api.value f <> "" ->
     ProductCarousel.heading m = Api.value f /\
     ReviewSection.heading m = Api.value f) /\
  (no_field m "heading"
   \/ (exists f, first_field m "heading" f /\ Api.value f = "") ->
   ProductCarousel.heading m = "Our Featured Products" /\
   ReviewSection.heading m = "What Our Customers Say").
Proof.
  unfold ProductCarousel.heading, ReviewSection.heading.
  change (ReviewSection.getFieldValue m "heading")
    with (HeroParallax.getFieldValue m "heading").
  change (ProductCarousel.getFieldValue m "heading")
    with (HeroParallax.getFieldValue m "heading").
  split; [apply or_not_empty; discriminate|].
  split; [apply or_not_empty; discriminate|]. split.
  - intros f Hf Hv.
    rewrite (getFieldValue_found m _ f (proj1 (findField_first m _ f) Hf)).
    split; apply or_default; exact Hv.
  - intros Hcase.
    assert (HeroParallax.getFieldValue m "heading" = "") as ->.
    { destruct Hcase as [Hno|(f & Hf & Hv)].
      - apply getFieldValue_missing, findField_none, Hno.
      - rewrite (getFieldValue_found m _ f (proj1 (findField_first m _ f) Hf)).
        exact Hv. }
    split; reflexivity.
Qed.

(** ** The columns of reviews *)

Section Columns.

Context {Number : Type}.

Implicit Types reviews : list (ReviewSection.Review Number).

Lemma list_ind3 {A} (P : list A -> Prop) :
  P [] -> (forall a, P [a]) -> (forall a b, P [a; b]) ->
  (forall a b c l, P l -> P (a :: b :: c :: l)) ->
  forall l, P l.
Proof.
  intros H0 H1 H2 H3 l.
  assert (P l /\ (forall a, P (a :: l)) /\ (forall a b, P (a :: b :: l)))
    as [H _].
  { induction l as [|x l (IH0 & IH1 & IH2)]; [auto|].
    split; [apply IH1|]. split; [intros a; apply IH2|].
    intros a b. apply H3, IH0. }
  exact H.
Qed.

Lemma succ_mod3 (k k' : nat) :
  k mod 3 = k' mod 3 -> S k mod 3 = S k' mod 3.
Proof.
  intros H. replace (S k) with (k + 1) by lia.
  replace (S k') with (k' + 1) by lia.
  rewrite (Nat.Div0.add_mod k), (Nat.Div0.add_mod k'), H. reflexivity.
Qed.

(** Only the index modulo 3 matters. *)
Lemma columns_mod reviews (k k' : nat) :
  k mod 3 = k' mod 3 ->
  ReviewSection.columns reviews k = ReviewSection.columns reviews k'.
Proof.
  revert k k'. induction reviews as [|r reviews IH]; intros k k' H;
    cbn [ReviewSection.columns].
  - reflexivity.
  - rewrite (IH (S k) (S k') (succ_mod3 k k' H)), H. reflexivity.
Qed.

Lemma columns_three r1 r2 r3 reviews c1 c2 c3 :
  ReviewSection.columns reviews 0 = (c1, c2, c3) ->
  ReviewSection.columns (r1 :: r2 :: r3 :: reviews) 0 =
  (r1 :: c1, r2 :: c2, r3 :: c3).
Proof.
  intros H. cbn [ReviewSection.columns].
  rewrite (columns_mod reviews 3 0 eq_refl), H. reflexivity.
Qed.

Lemma three_more (j : nat) :
  S (S (S j)) mod 3 = j mod 3 /\ S (S (S j)) / 3 = S (j / 3).
Proof.
  replace (S (S (S j))) with (j + 1 * 3) by lia.
  rewrite Nat.Div0.mod_add, Nat.div_add by lia. split; lia.
Qed.

Lemma columns_spec reviews :
  exists c1 c2 c3,
    ReviewSection.columns reviews 0 = (c1, c2, c3) /\
    (forall i,
       nth_error reviews i =
       nth_error (match i mod 3 with 0 => c1 | 1 => c2 | _ => c3 end) (i / 3)) /\
    length c1 + length c2 + length c3 = length reviews /\
    length c3 <= length c2 <= length c1 /\ length c1 <= S (length c3).
Proof.
  induction reviews as [|a|a b|a b c reviews IH] using list_ind3.
  - exists [], [], []. split; [reflexivity|]. split; [|simpl; lia].
    intros i. destruct (i mod 3) as [|[|]]; rewrite !nth_error_nil; reflexivity.
  - exists [a], [], []. split; [reflexivity|]. split; [|simpl; lia].
    intros [|[|[|j]]]; try reflexivity.
    destruct (three_more j) as [-> ->].
    destruct (j mod 3) as [|[|]]; destruct (j / 3); reflexivity.
  - exists [a], [b], []. split; [reflexivity|]. split; [|simpl; lia].
    intros [|[|[|j]]]; try reflexivity.
    destruct (three_more j) as [-> ->].
    destruct (j mod 3) as [|[|]]; destruct (j / 3); reflexivity.
  - destruct IH as (c1 & c2 & c3 & Hcols & Hnth & Hsum & Hbal).
    exists (a :: c1), (b :: c2), (c :: c3).
    split; [apply columns_three, Hcols|]. split; [|simpl; lia].
    intros [|[|[|j]]]; try reflexivity.
    destruct (three_more j) as [-> ->].
    cbn [nth_error]. rewrite (Hnth j).
    destruct (j mod 3) as [|[|]]; reflexivity.
Qed.

End Columns.

(** X9: the reviews are dealt to the three columns in turn: the review
    at position [i] is the entry [i / 3] of column [i mod 3], so every
    review is in exactly one column and each column keeps the order of
    the list; the columns together hold as many entries as the list, and
    their lengths differ by at most one, the first being the longest. *)
Theorem columns_deal_reviews_in_turn {Number}
    (reviews : list (ReviewSection.Review Number)) :
  exists c1 c2 c3,
    ReviewSection.columns reviews 0 = (c1, c2, c3) /\
    (forall i,
       nth_error reviews i =
       nth_error (match i mod 3 with 0 => c1 | 1 => c2 | _ => c3 end) (i / 3)) /\
    length c1 + length c2 + length c3 = length reviews /\
    length c3 <= length c2 <= length c1 /\ length c1 <= S (length c3).
Proof. apply columns_spec. Qed.

(** ** What the reviews section shows *)

Arguments ReviewSection.v_heading {Number} v.
Arguments ReviewSection.col1 {Number} v.
Arguments ReviewSection.col2 {Number} v.
Arguments ReviewSection.col3 {Number} v.

Lemma ReviewsSection_shown {Number} (parseFloat : string -> Number)
    (m : Metaobject) l r reviews :
  Api.fields m = Some l ->
  ReviewSection.reviews parseFloat m = Ok (r :: reviews) ->
  exists c1 c2 c3,
    ReviewSection.columns (r :: reviews) 0 = (c1, c2, c3) /\
    ReviewSection.ReviewsSection parseFloat (Some m) =
    Ok ([], Some {| ReviewSection.v_heading := ReviewSection.heading m;
                    ReviewSection.col1 := c1 ++ c1 ++ c1;
                    ReviewSection.col2 := c2 ++ c2 ++ c2;
                    ReviewSection.col3 := c3 ++ c3 ++ c3 |}).
Proof.
  intros Hf Hr. unfold ReviewSection.ReviewsSection. rewrite Hf, Hr.
  cbn [JS.bind length Nat.eqb].
  destruct (ReviewSection.columns (r :: reviews) 0) as [[c1 c2] c3].
  exists c1, c2, c3. auto.
Qed.

(** X10: when [ReviewsSection] renders, nothing is logged, the heading
    is the heading of the section, and each displayed column is its
    column of the resolved reviews three times over; so the section
    shows three cards per review, and its first column is never empty. *)
Theorem reviews_view_repeats_columns {Number} (parseFloat : string -> Number)
    (m : Metaobject) (log : list string) (view : ReviewSection.View Number) :
  ReviewSection.ReviewsSection parseFloat (Some m) = Ok (log, Some view) ->
  exists reviews c1 c2 c3,
    ReviewSection.reviews parseFloat m = Ok reviews /\
    reviews <> [] /\
    ReviewSection.columns reviews 0 = (c1, c2, c3) /\
    log = [] /\
    ReviewSection.v_heading view = ReviewSection.heading m /\
    ReviewSection.col1 view = c1 ++ c1 ++ c1 /\
    ReviewSection.col2 view = c2 ++ c2 ++ c2 /\
    ReviewSection.col3 view = c3 ++ c3 ++ c3 /\
    ReviewSection.col1 view <> [] /\
    length (ReviewSection.col1 view) + length (ReviewSection.col2 view)
    + length (ReviewSection.col3 view) = 3 * length reviews.
Proof.
  intros Hrun.
  destruct (ReviewsSection_cases parseFloat (Some m))
    as [[_ Hcase]
       |[(m' & l & _ & _ & _ & Hcase)
        |(m' & l & r & reviews & view' & [= <-] & Hf & Hr & _)]];
    try (rewrite Hrun in Hcase; discriminate).
  destruct (ReviewsSection_shown parseFloat m l r reviews Hf Hr)
    as (c1 & c2 & c3 & Hcols & Hshow).
  rewrite Hrun in Hshow. injection Hshow as -> ->.
  exists (r :: reviews), c1, c2, c3. cbn [ReviewSection.v_heading
    ReviewSection.col1 ReviewSection.col2 ReviewSection.col3].
  repeat (split; [first [assumption | reflexivity | discriminate]|]).
  destruct (columns_spec (r :: reviews))
    as (d1 & d2 & d3 & Hcols' & Hnth & Hsum & _).
  rewrite Hcols in Hcols'. injection Hcols' as <- <- <-. split.
  - specialize (Hnth 0). cbn in Hnth. destruct c1; [discriminate Hnth|].
    discriminate.
  - rewrite !length_app. lia.
Qed.

Lemma reviews_view_of_testimonials :
  exists log view reviews c1 c2 c3,
    ReviewSection.ReviewsSection Samples.parseDigits (Some Samples.testimonials)
      = Ok (log, Some view) /\
    ReviewSection.reviews Samples.parseDigits Samples.testimonials
      = Ok reviews /\
    ReviewSection.columns reviews 0 = (c1, c2, c3) /\
    length (ReviewSection.col1 view) + length (ReviewSection.col2 view)
    + length (ReviewSection.col3 view) = 3 * length reviews.
Proof.
  destruct (ReviewSection.ReviewsSection Samples.parseDigits
              (Some Samples.testimonials)) as [[log [view|]]|] eqn:Hrun;
    try discriminate Hrun.
  destruct (reviews_view_repeats_columns Samples.parseDigits
              Samples.testimonials log view Hrun)
    as (reviews & c1 & c2 & c3 & Hr & _ & Hc & _ & _ & _ & _ & _ & _ & Hlen).
  exists log, view, reviews, c1, c2, c3. auto.
Defined.

(** ** Stars *)

Lemma stars_are_filled_from_the_left_aux {Number}
    (floor : Number -> JS.floored) (rating : Number) :
  filled_stars (floor rating) <= 5 /\
  ReviewSection.renderStars floor rating =
    repeat "star filled" (filled_stars (floor rating))
    ++ repeat "star " (5 - filled_stars (floor rating)).
Proof.
  unfold ReviewSection.renderStars. cbn [List.map].
  destruct (floor rating) as [|z|[|]]; cbn [filled_stars JS.ltFloored negb].
  - split; [lia | reflexivity].
  - assert (z <= 0 \/ z = 1 \/ z = 2 \/ z = 3 \/ z = 4 \/ 5 <= z)%Z
      as [H|[->|[->|[->|[->|H]]]]] by lia;
      try (split; [cbn; lia | reflexivity]).
    + replace (Z.min 5 (Z.max 0 z)) with 0%Z by lia.
      rewrite !(proj2 (Z.ltb_ge _ _)) by lia. split; [cbn; lia | reflexivity].
    + replace (Z.min 5 (Z.max 0 z)) with 5%Z by lia.
      rewrite !(proj2 (Z.ltb_lt _ _)) by lia. split; [cbn; lia | reflexivity].
  - split; [lia | reflexivity].
  - split; [lia | reflexivity].
Qed.

(** X11: a card always has five stars; the filled ones come first, and
    their number is the floored rating cut to the range from 0 to 5: no
    star is filled for a rating that is not a number, or below 1, and
    all five are for a rating of 5 or more. *)
Theorem stars_are_filled_from_the_left {Number} (floor : Number -> JS.floored)
    (rating : Number) :
  length (ReviewSection.renderStars floor rating) = 5 /\
  filled_stars (floor rating) <= 5 /\
  ReviewSection.renderStars floor rating =
    repeat "star filled" (filled_stars (floor rating))
    ++ repeat "star " (5 - filled_stars (floor rating)).
Proof.
  split; [reflexivity | apply stars_are_filled_from_the_left_aux].
Qed.

Lemma repeat_stars (k : nat) :
  k <= 5 -> length (repeat "star filled" k ++ repeat "star " (5 - k)) = 5.
Proof. intros H. rewrite length_app, !repeat_length. lia. Qed.

(** X12: on hosts where [parseFloat "5"] floors to 5, the card of a
    review whose node has no [rating] field, or an empty one, shows five
    filled stars; and the card of a review whose rating text does not
    parse to a number shows five empty stars. *)
Theorem unrated_review_shows_five_stars {Number}
    (parseFloat : string -> Number) (floor : Number -> JS.floored)
    (n : Api.Entity) (r : ReviewSection.Review Number) (index : nat) :
  floor (parseFloat "5") = JS.FInt 5 ->
  ReviewSection.toReview parseFloat (Some n) = Ok r ->
  (no_field n "rating"
   \/ (exists f, first_field n "rating" f /\ Api.value f = "") ->
   ReviewSection.c_stars (ReviewSection.renderReviewCard floor r index) =
   repeat "star filled" 5) /\
  (forall f, first_field n "rating" f -> Api.value f <> "" ->
     floor (parseFloat (Api.value f)) = JS.FNaN ->
     ReviewSection.c_stars (ReviewSection.renderReviewCard floor r index) =
     repeat "star " 5).
Proof.
  intros Hfive Hmap. unfold ReviewSection.toReview in Hmap.
  injection Hmap as <-.
  cbn [ReviewSection.renderReviewCard ReviewSection.c_stars
       ReviewSection.rating].
  split.
  - intros Hcase.
    assert (ReviewSection.getReviewField n "rating" = "") as ->.
    { destruct Hcase as [Hno|(f & Hf & Hv)].
      - apply getReviewField_missing, Hno.
      - rewrite (getReviewField_found n _ f Hf). exact Hv. }
    cbn [JS.or JS.truthy String.eqb negb].
    destruct (stars_are_filled_from_the_left_aux floor (parseFloat "5"))
      as [_ ->].
    rewrite Hfive. reflexivity.
  - intros f Hf Hv Hnan.
    rewrite (getReviewField_found n _ f Hf).
    rewrite (proj2 (truthy_not_empty (Api.value f)) Hv).
    destruct (stars_are_filled_from_the_left_aux floor
                (parseFloat (Api.value f))) as [_ ->].
    rewrite Hnan. reflexivity.
Qed.

Lemma unrated_review_of_anonymous :
  ReviewSection.c_stars
    (ReviewSection.renderReviewCard Samples.floorDigits
       {| ReviewSection.id := Some "r2";
          ReviewSection.customerName := "";
          ReviewSection.customerRole := "";
          ReviewSection.customerImage :=
            "https://ui-avatars.com/api/?name=&background=667eea&color=fff&size=100&bold=true";
          ReviewSection.rating := Some 5%N;
          ReviewSection.reviewText := "Fine" |} 1)
  = repeat "star filled" 5.
Proof.
  apply (unrated_review_shows_five_stars Samples.parseDigits
           Samples.floorDigits Samples.anonymous _ 1 eq_refl eq_refl).
  left. apply findField_none. reflexivity.
Defined.

(** X13: given a metaobject with a list of fields, [ReviewsSection]
    renders (and logs nothing) when some node of its [reviews]
    references has a list of fields, and renders nothing, still without
    logging, when none has, in particular when there is no [reviews]
    field. *)
Theorem reviews_need_a_node_with_fields {Number}
    (parseFloat : string -> Number) (m : Metaobject) :
  Api.fields m <> None ->
  ((exists n, Some n ∈ ReviewSection.reviewNodes m /\ Api.fields n <> None) ->
   exists view,
     ReviewSection.ReviewsSection parseFloat (Some m) = Ok ([], Some view)) /\
  ((forall n, Some n ∈ ReviewSection.reviewNodes m -> Api.fields n = None) ->
   ReviewSection.ReviewsSection parseFloat (Some m) = Ok ([], None)) /\
  (no_field m "reviews" ->
   ReviewSection.ReviewsSection parseFloat (Some m) = Ok ([], None)).
Proof.
  intros Hfields.
  destruct (reviewsOf_projection parseFloat (ReviewSection.reviewNodes m))
    as (reviews & Hrun & Hproj).
  fold (ReviewSection.reviews parseFloat m) in Hrun.
  assert ((forall n, Some n ∈ ReviewSection.reviewNodes m ->
                     Api.fields n = None) ->
          ReviewSection.ReviewsSection parseFloat (Some m) = Ok ([], None))
    as Hnone.
  { intros Hall.
    destruct (ReviewsSection_cases parseFloat (Some m))
      as [[Hmiss _]
         |[(m' & l & [= <-] & _ & _ & Hshow)
          |(m' & l & r & rs & view & [= <-] & _ & Hr & _)]].
    - apply missing_Some in Hmiss. contradiction.
    - exact Hshow.
    - rewrite Hrun in Hr. injection Hr as ->.
      destruct (projection_source _ _ _ _ r Hproj) as (node & Hin & Hc & _);
        [left|].
      apply hasFields_iff in Hc as (n & -> & Hn).
      rewrite (Hall n Hin) in Hn. contradiction. }
  split; [|split; [exact Hnone|]].
  - intros (n & Hin & Hn).
    destruct (review_kept parseFloat _ reviews n Hproj Hin Hn) as (r & Hr & _).
    destruct (ReviewsSection_cases parseFloat (Some m))
      as [[Hmiss _]
         |[(m' & l & [= <-] & _ & Hempty & _)
          |(m' & l & q & rs & view & [= <-] & _ & _ & Hshow)]].
    + apply missing_Some in Hmiss. contradiction.
    + rewrite Hrun in Hempty. injection Hempty as ->. inversion Hr.
    + exists view. exact Hshow.
  - intros Hno. apply Hnone. intros n Hin.
    unfold ReviewSection.reviewNodes in Hin.
    rewrite (proj1 (getFieldReferences_nodes_missing m "reviews")),
      (proj2 (getFieldReferences_nodes_missing m "reviews") Hno) in Hin.
    inversion Hin.
Qed.

Lemma reviews_of_testimonials_are_shown :
  exists view,
    ReviewSection.ReviewsSection Samples.parseDigits (Some Samples.testimonials)
    = Ok ([], Some view).
Proof.
  apply (reviews_need_a_node_with_fields Samples.parseDigits
           Samples.testimonials).
  - discriminate.
  - exists Samples.anonymous. split; [|discriminate].
    right. left.
Defined.

(** ** The texts of the hero *)

Lemma prefix_iff (p s : string) :
  String.prefix p s = true <-> exists rest, s = (p ++ rest)%string.
Proof.
  revert s. induction p as [|a p IH]; intros s.
  - destruct s; simpl; split; eauto.
  - destruct s as [|b s]; simpl.
    + split; [discriminate|]. intros (rest & H). discriminate.
    + destruct (ascii_dec a b) as [->|Hne].
      * rewrite IH. split; intros (rest & H); exists rest; congruence.
      * split; [discriminate|]. intros (rest & [= H _]). congruence.
Qed.

Lemma skip_append (p rest : string) :
  JS.skip (String.length p) (p ++ rest) = rest.
Proof. induction p as [|a p IH]; simpl; [destruct rest|]; auto. Qed.

Lemma replace_unfold (pattern replacement s : string) :
  JS.replace pattern replacement s =
  if String.prefix pattern s
  then (replacement ++ JS.skip (String.length pattern) s)%string
  else
    match s with
    | EmptyString => EmptyString
    | String c s' => String c (JS.replace pattern replacement s')
    end.
Proof. destruct s; reflexivity. Qed.

Lemma replace_no_occurrence (pattern replacement s : string) :
  no_occurrence pattern s -> JS.replace pattern replacement s = s.
Proof.
  induction s as [|c s IH]; intros Hno.
  - cbn [JS.replace]. destruct (String.prefix pattern "") eqn:Hp; [|reflexivity].
    apply prefix_iff in Hp as (rest & Hrest).
    exfalso. apply (Hno "" rest). exact Hrest.
  - cbn [JS.replace].
    destruct (String.prefix pattern (String c s)) eqn:Hp.
    + apply prefix_iff in Hp as (rest & Hrest).
      exfalso. apply (Hno "" rest). exact Hrest.
    + f_equal. apply IH. intros pre post ->.
      apply (Hno (String c pre) post). reflexivity.
Qed.

Lemma replace_first_occurrence (pattern replacement s pre post : string) :
  first_occurrence pattern s pre post ->
  JS.replace pattern replacement s = (pre ++ replacement ++ post)%string.
Proof.
  revert s. induction pre as [|c pre IH]; intros s [-> Hfirst].
  - cbn [append].
    assert (String.prefix pattern (pattern ++ post) = true) as Hp
        by (apply prefix_iff; exists post; reflexivity).
    rewrite replace_unfold, Hp, skip_append. reflexivity.
  - cbn [append JS.replace].
    destruct (String.prefix pattern (String c (pre ++ pattern ++ post)))
      eqn:Hp.
    + apply prefix_iff in Hp as (rest & Hrest).
      specialize (Hfirst "" rest Hrest). simpl in Hfirst. lia.
    + f_equal. apply IH. split; [reflexivity|].
      intros pre' post' Heq.
      specialize (Hfirst (String c pre') post').
      cbn [append] in Hfirst. rewrite Heq in Hfirst.
      specialize (Hfirst eq_refl). simpl in Hfirst. lia.
Qed.

Lemma occurrence_cases (pattern s : string) :
  no_occurrence pattern s
  \/ exists pre post, first_occurrence pattern s pre post.
Proof.
  induction s as [|c s IH].
  - destruct (String.prefix pattern "") eqn:Hp.
    + apply prefix_iff in Hp as (rest & Hrest). right. exists "", rest.
      split; [exact Hrest|]. intros; simpl; lia.
    + left. intros pre post Heq.
      destruct pre; [|discriminate Heq].
      assert (String.prefix pattern "" = true) as Hp'
          by (apply prefix_iff; exists post; exact Heq).
      congruence.
  - destruct (String.prefix pattern (String c s)) eqn:Hp.
    + apply prefix_iff in Hp as (rest & Hrest). right. exists "", rest.
      split; [exact Hrest|]. intros; simpl; lia.
    + assert (forall pre' post',
                String c s = (pre' ++ pattern ++ post')%string ->
                exists p, pre' = String c p /\
                          s = (p ++ pattern ++ post')%string) as Hsplit.
      { intros pre' post' Heq. destruct pre' as [|d p].
        - assert (String.prefix pattern (String c s) = true) as Hp'
              by (apply prefix_iff; exists post'; exact Heq).
          congruence.
        - injection Heq as -> ->. eauto. }
      destruct IH as [Hno|(pre & post & -> & Hfirst)].
      * left. intros pre' post' Heq.
        destruct (Hsplit pre' post' Heq) as (p & -> & Hs).
        exact (Hno p post' Hs).
      * right. exists (String c pre), post. split; [reflexivity|].
        intros pre' post' Heq.
        destruct (Hsplit pre' post' Heq) as (p & -> & Hs).
        specialize (Hfirst p post' Hs). simpl. lia.
Qed.

Example formatted_heading_sample :
  JS.replace "WELCOME TO THE" "WELCOME TO THE<br>"
    "WELCOME TO THE STORE. WELCOME TO THE CLUB"
  = "WELCOME TO THE<br> STORE. WELCOME TO THE CLUB"
  /\ HeroParallax.formattedHeading Samples.hero = "WELCOME".
Proof. split; reflexivity. Qed.

(** X14: the formatted heading is the heading with a line break put
    after the first occurrence of WELCOME TO THE, later occurrences
    being left alone, and it is the heading unchanged when the phrase
    does not occur; the formatted subheading does the same with its own
    phrase.  One of the two cases always applies. *)
Theorem formatted_texts_break_after_first_phrase (m : Metaobject) :
  (no_occurrence "WELCOME TO THE" (HeroParallax.heading m) ->
   HeroParallax.formattedHeading m = HeroParallax.heading m) /\
  (forall pre post,
     first_occurrence "WELCOME TO THE" (HeroParallax.heading m) pre post ->
     HeroParallax.formattedHeading m =
     (pre ++ "WELCOME TO THE<br>" ++ post)%string) /\
  (no_occurrence "WELCOME TO THE" (HeroParallax.heading m)
   \/ exists pre post,
        first_occurrence "WELCOME TO THE" (HeroParallax.heading m) pre post) /\
  (no_occurrence "Premium footwear for the modern athlete."
     (HeroParallax.subheading m) ->
   HeroParallax.formattedSubheading m = HeroParallax.subheading m) /\
  (forall pre post,
     first_occurrence "Premium footwear for the modern athlete."
       (HeroParallax.subheading m) pre post ->
     HeroParallax.formattedSubheading m =
     (pre ++ "Premium footwear for the modern athlete.<br>" ++ post)%string) /\
  (no_occurrence "Premium footwear for the modern athlete."
     (HeroParallax.subheading m)
   \/ exists pre post,
        first_occurrence "Premium footwear for the modern athlete."
          (HeroParallax.subheading m) pre post).
Proof.
  unfold HeroParallax.formattedHeading, HeroParallax.formattedSubheading.
  repeat split;
    first [ apply replace_no_occurrence
          | intros pre post; apply replace_first_occurrence
          | apply occurrence_cases ].
Qed.

(** ** What the hero renders *)

Lemma getFieldValue_not_empty (m : Metaobject) (k : string) :
  HeroParallax.getFieldValue m k <> "" <->
  exists f, first_field m k f /\ Api.value f <> "".
Proof.
  split.
  - intros Hv. destruct (lookup_cases m k) as [Hno|[f Hf]].
    + exfalso. apply Hv. apply getFieldValue_missing, findField_none, Hno.
    + exists f. split; [exact Hf|].
      rewrite <- (getFieldValue_found m k f (proj1 (findField_first m k f) Hf)).
      exact Hv.
  - intros (f & Hf & Hv).
    rewrite (getFieldValue_found m k f (proj1 (findField_first m k f) Hf)).
    exact Hv.
Qed.

Example hero_markup_sample :
  HeroParallax.markup Samples.hero =
  {| HeroParallax.m_background := HeroParallax.backgroundImage Samples.hero;
     HeroParallax.m_heading := Some "WELCOME";
     HeroParallax.m_subheading := None;
     HeroParallax.m_cta := None |}.
Proof. reflexivity. Qed.

(** X15: the hero renders its button exactly when the metaobject has a
    first [cta_text] field and a first [cta_url_new] field that both
    hold a non-empty value, and then the button links to that address
    with that label; the heading and the subheading are rendered exactly
    when their text is not empty, with the formatted text as content;
    and for a metaobject without a list of fields nothing of the four
    parts is rendered. *)
Theorem hero_renders_what_is_filled (m : Metaobject) :
  (HeroParallax.m_cta (HeroParallax.markup m) <> None <->
     (exists f, first_field m "cta_text" f /\ Api.value f <> "") /\
     (exists f, first_field m "cta_url_new" f /\ Api.value f <> "")) /\
  (forall address label,
     HeroParallax.m_cta (HeroParallax.markup m) = Some (address, label) ->
     address = HeroParallax.ctaUrl m /\ label = HeroParallax.ctaText m /\
     address <> "" /\ label <> "") /\
  (HeroParallax.m_heading (HeroParallax.markup m) =
     if String.eqb (HeroParallax.heading m) "" then None
     else Some (HeroParallax.formattedHeading m)) /\
  (HeroParallax.m_subheading (HeroParallax.markup m) =
     if String.eqb (HeroParallax.subheading m) "" then None
     else Some (HeroParallax.formattedSubheading m)) /\
  (Api.fields m = None ->
   HeroParallax.markup m =
   {| HeroParallax.m_background := None;
      HeroParallax.m_heading := None;
      HeroParallax.m_subheading := None;
      HeroParallax.m_cta := None |}).
Proof.
  unfold HeroParallax.markup. cbn [HeroParallax.m_cta HeroParallax.m_heading
    HeroParallax.m_subheading].
  split; [|split; [|split; [|split; [|]]]].
  - unfold HeroParallax.ctaText, HeroParallax.ctaUrl.
    rewrite <- !getFieldValue_not_empty, <- !truthy_not_empty.
    destruct (JS.truthy (HeroParallax.getFieldValue m "cta_text"));
      destruct (JS.truthy (HeroParallax.getFieldValue m "cta_url_new"));
      cbn [andb]; split; try discriminate; try tauto;
      intros [? ?]; discriminate.
  - intros address label.
    destruct (JS.truthy (HeroParallax.ctaText m)) eqn:Ht;
      destruct (JS.truthy (HeroParallax.ctaUrl m)) eqn:Hu;
      cbn [andb]; try discriminate.
    intros [= <- <-]. apply truthy_not_empty in Ht, Hu. auto.
  - unfold JS.truthy. destruct (String.eqb (HeroParallax.heading m) "");
      reflexivity.
  - unfold JS.truthy. destruct (String.eqb (HeroParallax.subheading m) "");
      reflexivity.
  - intros Hf. unfold HeroParallax.heading, HeroParallax.subheading,
      HeroParallax.ctaText, HeroParallax.ctaUrl, HeroParallax.backgroundImage,
      HeroParallax.backgroundImageReference, HeroParallax.getFieldValue,
      HeroParallax.getFieldReference.
    rewrite Hf. reflexivity.
Qed.

(** ** The page and its loader *)

Lemma slot_cases {A} (m : option Metaobject) (text : string)
    (component : Metaobject -> A) :
  (Homepage.slot m text component = Homepage.Placeholder text <-> m = None) /\
  (forall x, m = Some x ->
             Homepage.slot m text component = Homepage.Rendered (component x)).
Proof.
  destruct m as [x|]; simpl; split; try (split; [discriminate|discriminate]);
    try (split; reflexivity); try discriminate.
  - intros y [= <-]. reflexivity.
Qed.

(** X16: on a request whose locale is accepted, the page built from the
    data of the loader shows, for each section, its placeholder exactly
    when the query of that section did not settle with a metaobject
    (rejected, or fulfilled without one), and the section rendered from
    the fetched metaobject otherwise, whatever happened to the other
    queries; when the critical-data step raises, the page is the three
    placeholders. *)
Theorem page_shows_placeholder_per_failed_query {Seo Number}
    (seoHome : string -> Seo) (toLowerCase : string -> string)
    (parseFloat : string -> Number) (args : Homepage.Args) :
  Homepage.localeMismatch toLowerCase args = false ->
  exists data,
    Homepage.loader seoHome toLowerCase args = Homepage.Deferred data /\
    (forall s h p r env,
       Homepage.shopQuery args = Homepage.Promise s ->
       Homepage.heroQuery args = Homepage.Promise h ->
       Homepage.productQuery args = Homepage.Promise p ->
       Homepage.reviewsQuery args = Homepage.Promise r ->
       Homepage.nodeEnv args = Ok env ->
       (Homepage.p_hero (Homepage.Homepage parseFloat data) =
          Homepage.Placeholder "Hero section loading..." <->
        Homepage.metaobjectOf h = None) /\
       (forall m, Homepage.metaobjectOf h = Some m ->
          Homepage.p_hero (Homepage.Homepage parseFloat data) =
          Homepage.Rendered (HeroParallax.HeroParallax m)) /\
       (Homepage.p_products (Homepage.Homepage parseFloat data) =
          Homepage.Placeholder "Products loading..." <->
        Homepage.metaobjectOf p = None) /\
       (forall m, Homepage.metaobjectOf p = Some m ->
          Homepage.p_products (Homepage.Homepage parseFloat data) =
          Homepage.Rendered (ProductCarousel.ProductCarousel (Some m) 0)) /\
       (Homepage.p_reviews (Homepage.Homepage parseFloat data) =
          Homepage.Placeholder "Reviews loading..." <->
        Homepage.metaobjectOf r = None) /\
       (forall m, Homepage.metaobjectOf r = Some m ->
          Homepage.p_reviews (Homepage.Homepage parseFloat data) =
          Homepage.Rendered
            (ReviewSection.ReviewsSection parseFloat (Some m)))) /\
    (forall e,
       Homepage.loadCriticalData seoHome args = Throw e ->
       Homepage.Homepage parseFloat data =
       {| Homepage.p_hero := Homepage.Placeholder "Hero section loading...";
          Homepage.p_products := Homepage.Placeholder "Products loading...";
          Homepage.p_reviews := Homepage.Placeholder "Reviews loading..." |}).
Proof.
  intros Hlocale. unfold Homepage.loader. rewrite Hlocale.
  destruct (Homepage.loadCriticalData seoHome args) as [data|error] eqn:Hload.
  - exists data. split; [reflexivity|]. split; [|discriminate].
    intros s h p r env Hs Hh Hp Hr Henv.
    rewrite (loadCriticalData_settled seoHome args s h p r env Hs Hh Hp Hr Henv)
      in Hload.
    injection Hload as <-.
    unfold Homepage.Homepage, Homepage.heroSlot, Homepage.productSlot,
      Homepage.reviewsSlot.
    cbn [Homepage.p_hero Homepage.p_products Homepage.p_reviews
         Homepage.heroParallax Homepage.productShowcase
         Homepage.reviewsSection].
    repeat split; try apply slot_cases; intros; apply slot_cases; assumption.
  - eexists. split; [reflexivity|]. split; [|reflexivity].
    intros s h p r env Hs Hh Hp Hr Henv.
    rewrite (loadCriticalData_settled seoHome args s h p r env Hs Hh Hp Hr Henv)
      in Hload.
    discriminate.
Qed.

Lemma page_when_hero_is_down :
  exists data,
    Homepage.loader (fun u => u) Samples.lowerAscii Samples.heroDown
      = Homepage.Deferred data /\
    Homepage.p_hero (Homepage.Homepage Samples.parseDigits data) =
      Homepage.Placeholder "Hero section loading..." /\
    Homepage.p_products (Homepage.Homepage Samples.parseDigits data) =
      Homepage.Rendered
        (ProductCarousel.ProductCarousel (Some Samples.showcase) 0).
Proof.
  destruct (page_shows_placeholder_per_failed_query (fun u => u)
              Samples.lowerAscii Samples.parseDigits Samples.heroDown eq_refl)
    as (data & Hrun & Hsettled & _).
  exists data. split; [exact Hrun|].
  destruct (Hsettled _ _ _ _ _ eq_refl eq_refl eq_refl eq_refl eq_refl)
    as (Hhero & _ & _ & Hproducts & _).
  split; [apply Hhero; reflexivity | apply Hproducts; reflexivity].
Defined.

(** X17: on the page, the diagnostic error state of the product section
    and the error logged by the reviews section occur only for a fetched
    metaobject that has no list of fields; when the slot of the section
    is null the page shows the placeholder of the section and the
    component is not reached. *)
Theorem page_diagnostics_need_a_metaobject {Seo Number}
    (parseFloat : string -> Number) (data : Homepage.LoaderData Seo) :
  (Homepage.p_products (Homepage.Homepage parseFloat data) =
     Homepage.Rendered (Ok ProductCarousel.ErrorState) <->
   exists m, Homepage.productShowcase data = Some m /\ Api.fields m = None) /\
  (Homepage.productShowcase data = None ->
   Homepage.p_products (Homepage.Homepage parseFloat data) =
   Homepage.Placeholder "Products loading...") /\
  (Homepage.p_reviews (Homepage.Homepage parseFloat data) =
     Homepage.Rendered
       (Ok (["[ReviewsSection] metaobject is null or has no fields"], None)) <->
   exists m, Homepage.reviewsSection data = Some m /\ Api.fields m = None) /\
  (Homepage.reviewsSection data = None ->
   Homepage.p_reviews (Homepage.Homepage parseFloat data) =
   Homepage.Placeholder "Reviews loading...").
Proof.
  unfold Homepage.Homepage, Homepage.productSlot, Homepage.reviewsSlot.
  cbn [Homepage.p_products Homepage.p_reviews].
  split; [|split; [|split]].
  - destruct (Homepage.productShowcase data) as [m|]; cbn [Homepage.slot].
    + split.
      * intros [= Hview].
        destruct (ProductCarousel_cases (Some m) 0)
          as [[Hmiss _]
             |[(m' & l & [= <-] & _ & _ & Hcase)|
               (m' & l & p & ps & [= <-] & _ & _ & Hcase)]];
          try (pose proof (eq_trans (eq_sym Hview) Hcase) as Hbad;
               discriminate Hbad).
        exists m. split; [reflexivity | apply missing_Some, Hmiss].
      * intros (m' & [= <-] & Hf).
        unfold ProductCarousel.ProductCarousel. rewrite Hf. reflexivity.
    + split; [discriminate|]. intros (m & H & _). discriminate.
  - intros ->. reflexivity.
  - destruct (Homepage.reviewsSection data) as [m|]; cbn [Homepage.slot].
    + split.
      * intros [= Hview].
        destruct (ReviewsSection_cases parseFloat (Some m))
          as [[Hmiss _]
             |[(m' & l & [= <-] & _ & _ & Hcase)|
               (m' & l & r & rs & view & [= <-] & _ & _ & Hcase)]];
          try (pose proof (eq_trans (eq_sym Hview) Hcase) as Hbad;
               discriminate Hbad).
        exists m. split; [reflexivity | apply missing_Some, Hmiss].
      * intros (m' & [= <-] & Hf).
        unfold ReviewSection.ReviewsSection. rewrite Hf. reflexivity.
    + split; [discriminate|]. intros (m & H & _). discriminate.
  - intros ->. reflexivity.
Qed.

(** X18: the loader raises a response exactly when the request has a
    non-empty locale that differs, after lower-casing, from the language
    and country of the storefront joined by a dash, and that response is
    a 404; in every other case it returns deferred data, whose SEO
    payload is the one of the home page for the address of the request
    whether or not the queries succeeded. *)
Theorem loader_rejects_foreign_locale {Seo} (seoHome : string -> Seo)
    (toLowerCase : string -> string) (args : Homepage.Args) :
  (Homepage.loader seoHome toLowerCase args = Homepage.ResponseThrown 404 <->
   exists l,
     Homepage.locale args = Some l /\ l <> "" /\
     toLowerCase l <>
     toLowerCase (Homepage.language args ++ "-" ++ Homepage.country args)%string) /\
  (forall status,
     Homepage.loader seoHome toLowerCase args = Homepage.ResponseThrown status ->
     status = 404%Z) /\
  (forall data,
     Homepage.loader seoHome toLowerCase args = Homepage.Deferred data ->
     Homepage.seo data = seoHome (Homepage.url args)) /\
  (Homepage.loader seoHome toLowerCase args = Homepage.ResponseThrown 404
   \/ exists data,
        Homepage.loader seoHome toLowerCase args = Homepage.Deferred data).
Proof.
  assert (Homepage.localeMismatch toLowerCase args = true <->
          exists l,
            Homepage.locale args = Some l /\ l <> "" /\
            toLowerCase l <>
            toLowerCase (Homepage.language args ++ "-" ++ Homepage.country args)%string)
    as Hmismatch.
  { unfold Homepage.localeMismatch.
    destruct (Homepage.locale args) as [l|].
    - rewrite andb_true_iff, negb_true_iff, truthy_not_empty, String.eqb_neq.
      split.
      + intros [H1 H2]. exists l. auto.
      + intros (l' & [= <-] & H1 & H2). auto.
    - split; [discriminate|]. intros (l & H & _). discriminate. }
  assert (forall data,
            Homepage.loadCriticalData seoHome args = Ok data ->
            Homepage.seo data = seoHome (Homepage.url args)) as Hseo.
  { unfold Homepage.loadCriticalData. intros data.
    destruct (Homepage.issue (Homepage.shopQuery args)); [|discriminate].
    destruct (Homepage.issue (Homepage.heroQuery args)); [|discriminate].
    destruct (Homepage.issue (Homepage.productQuery args)); [|discriminate].
    destruct (Homepage.issue (Homepage.reviewsQuery args)); [|discriminate].
    destruct (Homepage.nodeEnv args); [|discriminate].
    cbn [JS.bind]. intros [= <-]. reflexivity. }
  unfold Homepage.loader.
  destruct (Homepage.localeMismatch toLowerCase args) eqn:Hm.
  - split; [split; [intros _; apply Hmismatch; reflexivity | reflexivity]|].
    split; [intros status [= <-]; reflexivity|].
    split; [discriminate | left; reflexivity].
  - split.
    { split.
      - destruct (Homepage.loadCriticalData seoHome args); discriminate.
      - intros H. apply Hmismatch in H. discriminate. }
    split; [destruct (Homepage.loadCriticalData seoHome args); discriminate|].
    split.
    + destruct (Homepage.loadCriticalData seoHome args) as [d|e] eqn:Hload;
        intros data [= <-]; [apply Hseo; reflexivity | reflexivity].
    + right. destruct (Homepage.loadCriticalData seoHome args); eauto.
Qed.

(** ** The header of the layout *)

Lemma split_not_nil (sep : ascii) (s : string) : JS.split sep s <> [].
Proof.
  destruct s as [|c s]; simpl; [discriminate|].
  destruct (Ascii.eqb c sep); [discriminate|].
  destruct (JS.split sep s); discriminate.
Qed.

Lemma concat_cons (sep w : string) (ws : list string) :
  ws <> [] ->
  String.concat sep (w :: ws) = (w ++ sep ++ String.concat sep ws)%string.
Proof. destruct ws; [congruence | reflexivity]. Qed.

Lemma concat_cons_char (sep : string) (c : ascii) (w : string)
    (ws : list string) :
  String.concat sep (String c w :: ws) = String c (String.concat sep (w :: ws)).
Proof. destruct ws; reflexivity. Qed.

(** Joining the pieces with the separator gives the string back. *)
Lemma split_concat (sep : ascii) (s : string) :
  String.concat (String sep "") (JS.split sep s) = s.
Proof.
  induction s as [|c s IH]; [reflexivity|]. cbn [JS.split].
  destruct (Ascii.eqb_spec c sep) as [->|Hne].
  - rewrite concat_cons by apply split_not_nil. rewrite IH. reflexivity.
  - destruct (JS.split sep s) as [|w ws] eqn:Hs.
    + exfalso. exact (split_not_nil sep s Hs).
    + rewrite concat_cons_char, IH. reflexivity.
Qed.

Lemma split_length (sep : ascii) (s : string) :
  length (JS.split sep s) = S (count_char sep s).
Proof.
  induction s as [|c s IH]; [reflexivity|]. cbn [JS.split count_char].
  destruct (Ascii.eqb c sep).
  - cbn [length]. rewrite IH. reflexivity.
  - destruct (JS.split sep s) as [|w ws]; [discriminate IH|].
    cbn [length] in *. lia.
Qed.

Lemma split_pieces (sep : ascii) (s : string) :
  Forall (fun w => ~ has_char sep w) (JS.split sep s).
Proof.
  induction s as [|c s IH]; cbn [JS.split].
  - constructor; [|constructor]. intros ([|? ?] & post & H); discriminate.
  - destruct (Ascii.eqb_spec c sep) as [->|Hne].
    + constructor; [|exact IH]. intros ([|? ?] & post & H); discriminate.
    + destruct (JS.split sep s) as [|w ws].
      * constructor; [|constructor].
        intros ([|d [|? ?]] & post & H); try discriminate.
        injection H as H _. congruence.
      * inversion IH as [|? ? Hw Hws]; subst.
        constructor; [|exact Hws].
        intros ([|d pre] & post & H).
        -- injection H as H _. congruence.
        -- injection H as _ H. apply Hw. exists pre, post. exact H.
Qed.

Example logo_words_sample :
  PageLayout.logoWords "Sneaker  Store" = ["Sneaker"; ""; "Store"]
  /\ PageLayout.logoWords "" = [""]
  /\ PageLayout.logoWords " Drip " = [""; "Drip"; ""].
Proof. repeat split. Qed.

Lemma logo_words_rejoin_aux (shopTitle : string) :
  String.concat " " (PageLayout.logoWords shopTitle) = shopTitle.
Proof.
  unfold PageLayout.logoWords. rewrite JS_or_empty. apply split_concat.
Qed.

(** X19: the words of the logo, joined by single spaces, give back the
    title of the shop exactly; there is one word more than there are
    spaces in the title (so at least one, and empty words where spaces
    are doubled or at an end), and no word contains a space. *)
Theorem logo_words_rejoin (shopTitle : string) :
  String.concat " " (PageLayout.logoWords shopTitle) = shopTitle /\
  length (PageLayout.logoWords shopTitle) = S (count_char " " shopTitle) /\
  Forall (fun w => ~ has_char " " w) (PageLayout.logoWords shopTitle).
Proof.
  unfold PageLayout.logoWords. rewrite JS_or_empty.
  split; [apply split_concat|].
  split; [apply split_length | apply split_pieces].
Qed.

Section Navigation.

Context {MenuItem : Type} (title : MenuItem -> string).

Lemma navItems_of_list (m : PageLayout.EnhancedMenu MenuItem)
    (l : list MenuItem) :
  PageLayout.items m = Some l ->
  PageLayout.navItems title (Some m) =
  JS.filter (fun item => negb (String.eqb (title item) "Contact")) l.
Proof. intros H. unfold PageLayout.navItems. rewrite H. reflexivity. Qed.

Lemma navItems_empty (menu : option (PageLayout.EnhancedMenu MenuItem)) :
  menu = None \/ (exists m, menu = Some m /\ PageLayout.items m = None) ->
  PageLayout.navItems title menu = [].
Proof.
  intros [->|(m & -> & H)]; unfold PageLayout.navItems; [|rewrite H];
    reflexivity.
Qed.

Lemma navItems_no_contact (menu : option (PageLayout.EnhancedMenu MenuItem)) :
  Forall (fun item => title item <> "Contact") (PageLayout.navItems title menu).
Proof.
  apply Forall_forall. intros item Hin.
  apply elem_of_filter in Hin as [_ Hin].
  apply negb_true_iff, String.eqb_neq in Hin. exact Hin.
Qed.

End Navigation.

(** X20: no entry of the navigation is titled exactly Contact.  The
    navigation holds the other items of the menu in menu order (an item
    titled contact in lower case stays), it is empty when the menu or
    its items are missing, and the desktop navigation and the drawer of
    the header show the same entries. *)
Theorem navigation_hides_contact {MenuItem} (title : MenuItem -> string)
    (menu : option (PageLayout.EnhancedMenu MenuItem)) (shopTitle : string) :
  Forall (fun item => title item <> "Contact")
    (PageLayout.navItems title menu) /\
  (forall m l, menu = Some m -> PageLayout.items m = Some l ->
     PageLayout.navItems title menu `sublist_of` l /\
     forall item, item ∈ l -> title item <> "Contact" ->
                  item ∈ PageLayout.navItems title menu) /\
  (menu = None \/ (exists m, menu = Some m /\ PageLayout.items m = None) ->
   PageLayout.navItems title menu = []) /\
  PageLayout.h_nav (PageLayout.Header title shopTitle menu) =
    PageLayout.navItems title menu /\
  (forall m, menu = Some m ->
     PageLayout.h_drawer (PageLayout.Header title shopTitle menu) =
     Some (PageLayout.navItems title menu)).
Proof.
  split; [apply navItems_no_contact|].
  split; [|split; [apply navItems_empty|split; [reflexivity|]]].
  - intros m l -> Hl. rewrite (navItems_of_list title m l Hl).
    split; [apply filter_sublist|].
    intros item Hin Hne. apply elem_of_filter. split; [exact Hin|].
    apply negb_true_iff, String.eqb_neq. exact Hne.
  - intros m ->. reflexivity.
Qed.

Example navigation_sample :
  List.map Samples.e_title
    (PageLayout.navItems Samples.e_title (Some Samples.mainMenu))
  = ["Shop"; "contact"; "Journal"].
Proof. reflexivity. Qed.

(** X21: the layout renders no header exactly when the layout, its
    header menu or a non-empty shop name is missing.  A rendered header
    comes from a layout with a menu and a non-empty shop name: its logo
    words joined by single spaces are that name, its navigation is the
    filtered menu, without any entry titled Contact, and its drawer
    shows the same entries. *)
Theorem header_needs_menu_and_name {MenuItem} (title : MenuItem -> string)
    (layout : option (PageLayout.Layout MenuItem)) :
  (PageLayout.PageLayout title layout = None <->
   layout = None
   \/ exists l, layout = Some l /\
        (PageLayout.headerMenu l = None \/ PageLayout.shopName l = "")) /\
  (forall h,
     PageLayout.PageLayout title layout = Some h ->
     exists l menu,
       layout = Some l /\ PageLayout.headerMenu l = Some menu /\
       PageLayout.shopName l <> "" /\
       String.concat " " (PageLayout.h_words h) = PageLayout.shopName l /\
       PageLayout.h_nav h = PageLayout.navItems title (Some menu) /\
       PageLayout.h_drawer h = Some (PageLayout.h_nav h) /\
       Forall (fun item => title item <> "Contact") (PageLayout.h_nav h)).
Proof.
  unfold PageLayout.PageLayout. split.
  - destruct layout as [l|]; [|split; auto].
    destruct (PageLayout.headerMenu l) as [menu|] eqn:Hm.
    + destruct (JS.truthy (PageLayout.shopName l)) eqn:Ht.
      * split; [discriminate|].
        apply truthy_not_empty in Ht.
        intros [H|(l' & [= <-] & [H|H])]; [discriminate | congruence | congruence].
      * split; [|reflexivity]. intros _. right. exists l. split; [reflexivity|].
        right. unfold JS.truthy in Ht. apply negb_false_iff in Ht.
        apply String.eqb_eq in Ht. exact Ht.
    + split; [|reflexivity]. intros _. right. exists l. auto.
  - intros h. destruct layout as [l|]; [|discriminate].
    destruct (PageLayout.headerMenu l) as [menu|] eqn:Hm; [|discriminate].
    destruct (JS.truthy (PageLayout.shopName l)) eqn:Ht; [|discriminate].
    intros [= <-]. exists l, menu. apply truthy_not_empty in Ht.
    cbn [PageLayout.Header PageLayout.h_words PageLayout.h_nav
         PageLayout.h_drawer].
    repeat (split; [first [reflexivity | assumption]|]).
    split; [apply logo_words_rejoin_aux|].
    split; [reflexivity|]. split; [reflexivity|].
    apply navItems_no_contact.
Qed.

Example header_sample :
  PageLayout.PageLayout Samples.e_title (Some Samples.storeLayout) =
  Some {| PageLayout.h_words := ["Sneaker"; ""; "Store"];
          PageLayout.h_nav :=
            PageLayout.navItems Samples.e_title (Some Samples.mainMenu);
          PageLayout.h_drawer :=
            Some (PageLayout.navItems Samples.e_title
                    (Some Samples.mainMenu)) |}.
Proof. reflexivity. Qed.

(** ** The generated avatar *)

Lemma hexDigit_inj (i j : nat) :
  i < 16 -> j < 16 -> JS.hexDigit i = JS.hexDigit j -> i = j.
Proof.
  intros Hi Hj H.
  do 16 (destruct i as [|i];
         [do 16 (destruct j as [|j]; [first [reflexivity | discriminate H]|]);
          lia|]).
  lia.
Qed.

Lemma hexDigit_unreserved (i : nat) : i < 16 -> JS.unreserved (JS.hexDigit i) = true.
Proof.
  intros Hi. do 16 (destruct i as [|i]; [reflexivity|]). lia.
Qed.

Lemma hex_pair_inj (c d : ascii) :
  JS.hexDigit (nat_of_ascii c / 16) = JS.hexDigit (nat_of_ascii d / 16) ->
  JS.hexDigit (nat_of_ascii c mod 16) = JS.hexDigit (nat_of_ascii d mod 16) ->
  c = d.
Proof.
  intros Hhi Hlo.
  pose proof (nat_ascii_bounded c) as Hc.
  pose proof (nat_ascii_bounded d) as Hd.
  apply hexDigit_inj in Hhi;
    [|apply Nat.Div0.div_lt_upper_bound; lia
     |apply Nat.Div0.div_lt_upper_bound; lia].
  apply hexDigit_inj in Hlo; [|apply Nat.mod_upper_bound; lia
                              |apply Nat.mod_upper_bound; lia].
  rewrite <- (ascii_nat_embedding c), <- (ascii_nat_embedding d). f_equal.
  rewrite (Nat.div_mod_eq (nat_of_ascii c) 16),
          (Nat.div_mod_eq (nat_of_ascii d) 16).
  rewrite Hhi, Hlo. reflexivity.
Qed.

Lemma encodeURIComponent_inj (a b : string) :
  JS.encodeURIComponent a = JS.encodeURIComponent b -> a = b.
Proof.
  revert b. induction a as [|c a IH]; intros [|d b]; cbn [JS.encodeURIComponent].
  - reflexivity.
  - destruct (JS.unreserved d); discriminate.
  - destruct (JS.unreserved c); discriminate.
  - destruct (JS.unreserved c) eqn:Hc; destruct (JS.unreserved d) eqn:Hd.
    + intros [= -> H]. f_equal. apply IH, H.
    + intros [= -> _]. discriminate Hc.
    + intros [= <- _]. discriminate Hd.
    + intros [= Hhi Hlo H]. f_equal; [apply hex_pair_inj; assumption|].
      apply IH, H.
Qed.

Lemma encodeURIComponent_chars (s : string) (c : ascii) :
  In c (list_ascii_of_string (JS.encodeURIComponent s)) ->
  JS.unreserved c = true \/ c = "%"%char.
Proof.
  induction s as [|d s IH]; cbn [JS.encodeURIComponent list_ascii_of_string].
  - intros [].
  - destruct (JS.unreserved d) eqn:Hd; cbn [list_ascii_of_string In].
    + intros [<-|H]; auto.
    + pose proof (nat_ascii_bounded d) as Hb.
      intros [<-|[<-|[<-|H]]]; auto; left; apply hexDigit_unreserved.
      * apply Nat.Div0.div_lt_upper_bound. lia.
      * apply Nat.mod_upper_bound. lia.
Qed.

Example avatar_sample :
  ReviewSection.avatarUrl "Bob & Ray=1" =
  "https://ui-avatars.com/api/?name=Bob%20%26%20Ray%3D1&background=667eea&color=fff&size=100&bold=true".
Proof. reflexivity. Qed.

(** X22: whatever the customer name, the name parameter of the generated
    avatar address holds only unreserved characters and percent escapes,
    so none of [& = # ? / +] nor a space, and the three fixed parameters
    of the address stay intact; and two different names never give the
    same address. *)
Theorem avatar_address_is_well_formed (name : string) :
  (forall c,
     In c (list_ascii_of_string (JS.encodeURIComponent name)) ->
     (JS.unreserved c = true \/ c = "%"%char) /\
     ~ In c (list_ascii_of_string "&=#?/+ ")) /\
  ReviewSection.avatarUrl name =
    ("https://ui-avatars.com/api/?name=" ++ JS.encodeURIComponent name
     ++ "&background=667eea&color=fff&size=100&bold=true")%string /\
  (forall other,
     ReviewSection.avatarUrl name = ReviewSection.avatarUrl other ->
     name = other).
Proof.
  split; [|split; [reflexivity|]].
  - intros c Hc. apply encodeURIComponent_chars in Hc. split; [exact Hc|].
    cbn [list_ascii_of_string In].
    intros [<-|[<-|[<-|[<-|[<-|[<-|[<-|[]]]]]]]];
      destruct Hc as [Hc|Hc]; discriminate Hc.
  - intros other H. unfold ReviewSection.avatarUrl in H.
    apply string_append_inj_l in H.
    apply string_append_same_suffix_length in H as [H _]; [|reflexivity].
    apply encodeURIComponent_inj, H.
Qed.

(** ** Review cards *)

(** X23: the address a review card falls back to when its avatar fails
    to load is the generated avatar of the customer name, and the
    alternative text of the avatar is that name; for a review resolved
    from a node without image the fallback is the very address the card
    already shows. *)
Theorem card_falls_back_to_generated_avatar {Number}
    (parseFloat : string -> Number) (floor : Number -> JS.floored)
    (n : Api.Entity) (r : ReviewSection.Review Number) (index : nat) :
  ReviewSection.toReview parseFloat (Some n) = Ok r ->
  ReviewSection.c_onErrorSrc (ReviewSection.renderReviewCard floor r index) =
    ReviewSection.avatarUrl (ReviewSection.customerName r) /\
  ReviewSection.c_alt (ReviewSection.renderReviewCard floor r index) =
    ReviewSection.getReviewField n "customer_name" /\
  ReviewSection.c_src (ReviewSection.renderReviewCard floor r index) <> "" /\
  (no_image n "customer_img" ->
   ReviewSection.c_src (ReviewSection.renderReviewCard floor r index) =
   ReviewSection.c_onErrorSrc (ReviewSection.renderReviewCard floor r index)).
Proof.
  intros Hmap. unfold ReviewSection.toReview in Hmap. injection Hmap as <-.
  cbn [ReviewSection.renderReviewCard ReviewSection.c_onErrorSrc
       ReviewSection.c_alt ReviewSection.c_src ReviewSection.customerName
       ReviewSection.customerImage].
  split; [reflexivity|]. split; [reflexivity|]. split.
  - apply or_not_empty, avatarUrl_not_empty.
  - intros Himg. rewrite (getReviewImageField_missing n _ Himg). reflexivity.
Qed.

Lemma card_of_anonymous_falls_back_to_itself :
  ReviewSection.c_src
    (ReviewSection.renderReviewCard Samples.floorDigits
       {| ReviewSection.id := Some "r2";
          ReviewSection.customerName := "";
          ReviewSection.customerRole := "";
          ReviewSection.customerImage :=
            "https://ui-avatars.com/api/?name=&background=667eea&color=fff&size=100&bold=true";
          ReviewSection.rating := Some 5%N;
          ReviewSection.reviewText := "Fine" |} 1)
  = ReviewSection.c_onErrorSrc
      (ReviewSection.renderReviewCard Samples.floorDigits
         {| ReviewSection.id := Some "r2";
            ReviewSection.customerName := "";
            ReviewSection.customerRole := "";
            ReviewSection.customerImage :=
              "https://ui-avatars.com/api/?name=&background=667eea&color=fff&size=100&bold=true";
            ReviewSection.rating := Some 5%N;
            ReviewSection.reviewText := "Fine" |} 1).
Proof.
  apply (card_falls_back_to_generated_avatar Samples.parseDigits
           Samples.floorDigits Samples.anonymous _ 1 eq_refl).
  left. apply findField_none. reflexivity.
Defined.

(** ** The carousel after any navigation *)

(** X24: for a metaobject whose references resolve to at least one
    product, whatever arrows are clicked and scroll timeouts fire, the
    component draws the carousel with an info card (the centre product
    exists) and a window whose five entries all hold a product. *)
Theorem carousel_always_has_a_centre (m : Metaobject)
    (products : list ProductCarousel.Product)
    (events : list ProductCarousel.Event) :
  Api.fields m <> None ->
  ProductCarousel.products m = Ok products ->
  products <> [] ->
  exists s centre,
    ProductCarousel.run products ProductCarousel.initial events = Some s /\
    ProductCarousel.ProductCarousel (Some m) (ProductCarousel.currentIndex s) =
      Ok (ProductCarousel.Carousel (ProductCarousel.heading m)
            (ProductCarousel.visibleProducts products
               (ProductCarousel.currentIndex s))
            (Some centre)) /\
    length (ProductCarousel.visibleProducts products
              (ProductCarousel.currentIndex s)) = 5 /\
    Forall (fun v => ProductCarousel.product v <> None)
      (ProductCarousel.visibleProducts products
         (ProductCarousel.currentIndex s)).
Proof.
  intros Hfields Hproducts Hne.
  assert (in_range products 0) as H0.
  { unfold in_range. destruct products; [congruence | simpl; lia]. }
  assert (forall s0,
            in_range products (ProductCarousel.currentIndex s0) ->
            exists s,
              ProductCarousel.run products s0 events = Some s /\
              in_range products (ProductCarousel.currentIndex s)) as Hrun.
  { induction events as [|e events IH]; intros s0 Hc; simpl.
    - exists s0. auto.
    - destruct (step_in_range products s0 e Hc) as (s' & -> & Hc' & _).
      apply IH, Hc'. }
  destruct (Hrun ProductCarousel.initial H0) as (s & Hs & Hrange).
  destruct (index_in_range products _ Hrange) as (centre & Hcentre).
  exists s, centre. split; [exact Hs|]. split; [|split].
  - unfold ProductCarousel.ProductCarousel.
    destruct (Api.fields m); [|congruence].
    rewrite Hproducts. cbn [JS.bind].
    destruct products as [|p ps]; [congruence|].
    cbn [length Nat.eqb]. rewrite Hcentre. reflexivity.
  - reflexivity.
  - pose proof Hrange as Hrange'. unfold in_range in Hrange'.
    assert (forall i, (-2 <= i)%Z ->
              JS.index products
                (JS.rem (ProductCarousel.currentIndex s + i
                         + Z.of_nat (length products))
                        (Z.of_nat (length products))) <> None) as Hentry.
    { intros i Hi.
      destruct (visible_entry products (ProductCarousel.currentIndex s) i
                  Hne (proj1 Hrange') Hi) as [Heq (q & Hq)].
      apply (f_equal ProductCarousel.product) in Heq.
      cbn [ProductCarousel.product] in Heq. rewrite Heq, Hq. discriminate. }
    unfold ProductCarousel.visibleProducts. cbn [List.map].
    repeat (apply List.Forall_cons; [apply Hentry; lia|]).
    apply List.Forall_nil.
Qed.

Lemma carousel_of_showcase_after_clicks :
  exists products s centre,
    ProductCarousel.products Samples.showcase = Ok products /\
    ProductCarousel.run products ProductCarousel.initial Samples.clicks
      = Some s /\
    ProductCarousel.ProductCarousel (Some Samples.showcase)
      (ProductCarousel.currentIndex s) =
    Ok (ProductCarousel.Carousel (ProductCarousel.heading Samples.showcase)
          (ProductCarousel.visibleProducts products
             (ProductCarousel.currentIndex s))
          (Some centre)).
Proof.
  destruct (carousel_always_has_a_centre Samples.showcase _ Samples.clicks
              ltac:(discriminate) showcase_products ltac:(discriminate))
    as (s & centre & Hrun & Hshow & _).
  eexists. exists s, centre.
  split; [exact showcase_products|]. split; [exact Hrun | exact Hshow].
Defined.

(** ** Markup set from field values *)

(** A string that its own replacement leaves unchanged does not hold
    the pattern. *)
Lemma replace_fixed_no_occurrence (pattern s : string) :
  JS.replace pattern (pattern ++ "<br>") s = s -> no_occurrence pattern s.
Proof.
  intros Hfixed.
  destruct (occurrence_cases pattern s) as [Hno|(pre & post & Hfirst)];
    [exact Hno|].
  rewrite (replace_first_occurrence _ _ _ _ _ Hfirst) in Hfixed.
  destruct Hfirst as [-> _].
  apply (f_equal String.length) in Hfixed.
  rewrite !string_length_append in Hfixed. simpl in Hfixed. lia.
Qed.

(** X25: the value of the heading field reaches the page as markup
    without any escaping: when the first [heading] field of the
    metaobject holds a non-empty value in which WELCOME TO THE does not
    occur, the content set on the heading element is that value,
    character for character; and when the phrase occurs, it is that
    value with only the line break added after the first occurrence. *)
Theorem hero_heading_is_set_verbatim (m : Metaobject) (f : Field) :
  first_field m "heading" f ->
  Api.value f <> "" ->
  (no_occurrence "WELCOME TO THE" (Api.value f) ->
   HeroParallax.m_heading (HeroParallax.markup m) = Some (Api.value f)) /\
  (forall pre post,
     first_occurrence "WELCOME TO THE" (Api.value f) pre post ->
     HeroParallax.m_heading (HeroParallax.markup m) =
     Some (pre ++ "WELCOME TO THE<br>" ++ post)%string).
Proof.
  intros Hf Hv.
  assert (HeroParallax.heading m = Api.value f) as Hheading
      by (apply getFieldValue_found, findField_first, Hf).
  unfold HeroParallax.markup. cbn [HeroParallax.m_heading].
  unfold HeroParallax.formattedHeading. rewrite Hheading.
  rewrite (proj2 (truthy_not_empty _) Hv). split.
  - intros Hno. f_equal. apply replace_no_occurrence, Hno.
  - intros pre post Hfirst. f_equal. apply replace_first_occurrence, Hfirst.
Qed.

Lemma hero_heading_of_sample_is_verbatim :
  HeroParallax.m_heading (HeroParallax.markup Samples.hero) = Some "WELCOME".
Proof.
  apply (hero_heading_is_set_verbatim Samples.hero
           (Api.mkField "heading" "WELCOME" None None)).
  - apply findField_first. reflexivity.
  - discriminate.
  - apply replace_fixed_no_occurrence. reflexivity.
Defined.
